(** * Verification of src/fintual.py: stocks, portfolio and profit reports.

    Modelling choices.
    - Python exceptions and the interpreter's observable effects are a state
      and exception monad [M] over a [World]: the stream of raw draws of the
      random generator (with a read position) and the lines printed so far.
    - [randbelow n] consumes one raw draw and returns it reduced modulo [n]
      (CPython draws by rejection sampling; either way every value of
      [0, n) is an outcome and nothing outside it is).
    - Python floats are IEEE 754 binary64 numbers with round-to-nearest,
      ties-to-even arithmetic ([float] below): a finite non-zero float is
      kept as its exact rational value, and the signed zeros, the
      infinities and NaN are constructors of their own.  [+], [-] and [*]
      follow IEEE (an overflow gives an infinity); [/] raises
      ZeroDivisionError on a zero divisor, as CPython's [float_div] does;
      int / int and the conversion of an int to a float are correctly
      rounded and raise OverflowError past the largest double.
    - [sum] over floats is CPython 3.11's: repeated double addition starting
      from the int [0] (CPython 3.12 replaced it by a compensated sum).
    - [x ** y] on floats (C's pow) cannot be computed here: it is a
      parameter [py_pow] of the code that uses it, and it may raise.
    - Python str is a list of Unicode code points ([pystr]).  What the
      regex class [\d] matches and what [int] converts is the table of
      decimal digits (category Nd) of CPython 3.11, Unicode 14.0. *)

From Stdlib Require Import ZArith QArith Qabs Qpower Lia Lqa.
From stdpp Require Import base list strings.
From Stdlib Require Import Ascii.

Open Scope Z_scope.

(** ** Python strings *)

(** A str: its code points. *)
Definition pystr := list Z.

(** A str literal of the source, written in ASCII. *)
Fixpoint lit (s : string) : pystr :=
  match s with
  | EmptyString => []
  | String c r => Z.of_nat (nat_of_ascii c) :: lit r
  end.

(** ** Exceptions, world and the monad *)

Inductive exn :=
  | ValueError
  | IndexError
  | ZeroDivisionError
  | OverflowError
  | InvalidDateFormat (msg : pystr).

Record World := mkWorld {
  rng : nat -> Z;          (** raw draws of the random generator *)
  pos : nat;               (** number of draws consumed so far *)
  out : list pystr         (** lines printed to standard output *)
}.

Definition M (A : Type) : Type := World -> (exn + A) * World.

Definition ret {A} (a : A) : M A := fun w => (inr a, w).
Definition raise {A} (e : exn) : M A := fun w => (inl e, w).
Definition bind {A B} (m : M A) (k : A -> M B) : M B :=
  fun w => match m w with
           | (inl e, w') => (inl e, w')
           | (inr a, w') => k a w'
           end.
Definition of_result {A} (r : exn + A) : M A := fun w => (r, w).

Notation "x <-- m ;; k" := (bind m (fun x => k))
  (at level 95, m at next level, right associativity).
Notation "m ;;; k" := (bind m (fun _ => k))
  (at level 95, right associativity).

(** [print(line)]. *)
Definition print (line : pystr) : M unit :=
  fun w => (inr tt, mkWorld (rng w) (pos w) (out w ++ [line])).

(** ** Module [random] *)

(** [_randbelow(n)]: one draw reduced into [0, n). *)
Definition randbelow (n : Z) : M Z :=
  fun w => (inr (rng w (pos w) mod n), mkWorld (rng w) (S (pos w)) (out w)).

(** [randint(a, b) = a + _randbelow(b - a + 1)]. *)
Definition randint (a b : Z) : M Z :=
  r <-- randbelow (b - a + 1) ;; ret (a + r).

(** ** Python floats: IEEE 754 binary64, rounding to nearest, ties to even *)

(** The integer nearest to [q], ties to the even one. *)
Definition round_half_even (q : Q) : Z :=
  let a := Qnum q in
  let b := Zpos (Qden q) in
  let fl := a / b in
  let r := a mod b in
  if 2 * r <? b then fl
  else if b <? 2 * r then fl + 1
  else if Z.even fl then fl else fl + 1.

Definition pow2 (e : Z) : Q := Qpower (2 # 1) e.

(** [floor (log2 q)] for [q > 0]. *)
Definition Qlog2_floor (q : Q) : Z :=
  let k := Z.log2 (Qnum q) - Z.log2 (Zpos (Qden q)) in
  if Qle_bool (pow2 k) q then k else k - 1.

(** The weight of the last bit of a double of magnitude [q]: 53 bits of
    precision, subnormals below [2 ^ -1022]. *)
Definition float_exp (q : Q) : Z := Z.max (Qlog2_floor q - 52) (-1074).

(** A positive rational rounded to 53 bits, the exponent unbounded above. *)
Definition round_pos (q : Q) : Q :=
  let e := float_exp q in
  inject_Z (round_half_even (q / pow2 e)) * pow2 e.

Inductive float :=
  | Fzero (neg : bool)
  | Ffin (q : Q)            (** a finite non-zero double, in lowest terms *)
  | Finf (neg : bool)
  | Fnan.

(** Rounding of [a > 0] with sign [neg]: overflow to an infinity at
    [2 ^ 1024], underflow to a zero. *)
Definition fl_signed (neg : bool) (a : Q) : float :=
  let r := round_pos a in
  if Qle_bool (pow2 1024) r then Finf neg
  else if Qeq_bool r 0 then Fzero neg
  else Ffin (Qred (if neg then - r else r)%Q).

(** The double nearest to [q]; an exact zero gets the sign [zero_neg]. *)
Definition fl (q : Q) (zero_neg : bool) : float :=
  match Qcompare q 0 with
  | Eq => Fzero zero_neg
  | Gt => fl_signed false q
  | Lt => fl_signed true (- q)%Q
  end.

Definition fsign (x : float) : bool :=
  match x with
  | Fzero b | Finf b => b
  | Ffin q => Qnum q <? 0
  | Fnan => false
  end.

Definition fadd (x y : float) : float :=
  match x, y with
  | Fnan, _ | _, Fnan => Fnan
  | Finf a, Finf b => if Bool.eqb a b then Finf a else Fnan
  | Finf a, _ => Finf a
  | _, Finf b => Finf b
  | Fzero a, Fzero b => Fzero (a && b)
  | Fzero _, y => y
  | x, Fzero _ => x
  | Ffin p, Ffin q => fl (p + q) false
  end.

Definition fopp (x : float) : float :=
  match x with
  | Fzero b => Fzero (negb b)
  | Ffin q => Ffin (Qred (- q))
  | Finf b => Finf (negb b)
  | Fnan => Fnan
  end.

Definition fsub (x y : float) : float := fadd x (fopp y).

Definition fmul (x y : float) : float :=
  match x, y with
  | Fnan, _ | _, Fnan => Fnan
  | Finf _, Fzero _ | Fzero _, Finf _ => Fnan
  | Finf a, y => Finf (xorb a (fsign y))
  | x, Finf b => Finf (xorb (fsign x) b)
  | Fzero a, y => Fzero (xorb a (fsign y))
  | x, Fzero b => Fzero (xorb (fsign x) b)
  | Ffin p, Ffin q => fl (p * q) false
  end.

(** IEEE division. *)
Definition fdiv (x y : float) : float :=
  match x, y with
  | Fnan, _ | _, Fnan => Fnan
  | Finf _, Finf _ | Fzero _, Fzero _ => Fnan
  | Finf a, y => Finf (xorb a (fsign y))
  | x, Finf b => Fzero (xorb (fsign x) b)
  | Fzero a, y => Fzero (xorb a (fsign y))
  | x, Fzero b => Finf (xorb (fsign x) b)
  | Ffin p, Ffin q => fl (p / q) false
  end.

(** [x / y] on floats: CPython's [float_div] raises on [y == 0.0]. *)
Definition py_fdiv (x y : float) : exn + float :=
  match y with
  | Fzero _ => inl ZeroDivisionError
  | _ => inr (fdiv x y)
  end.

(** [a / b] on ints: the correctly rounded quotient; a zero result has the
    sign of [a * b]. *)
Definition py_int_truediv (a b : Z) : exn + float :=
  if b =? 0 then inl ZeroDivisionError
  else match fl (inject_Z a / inject_Z b) (xorb (a <? 0) (b <? 0)) with
       | Finf _ => inl OverflowError
       | r => inr r
       end.

(** [float(n)], as done when an int meets a float in an arithmetic operation. *)
Definition of_int (n : Z) : exn + float :=
  match fl (inject_Z n) false with
  | Finf _ => inl OverflowError
  | r => inr r
  end.

(** The int literals [1] and [100] of the source, as the floats they are
    converted to when they meet a float. *)
Definition f1 : float := Ffin (inject_Z 1).
Definition f100 : float := Ffin (inject_Z 100).

(** ** Class [Stock] *)

Record Stock := mkStock { name : pystr }.

(** [Stock._generate_random_price]:
    [randint(1, 1000) + randint(1, 100) / 100]; the left operand is
    evaluated first, the int / int division gives a float, and the int is
    converted when it is added to it. *)
Definition _generate_random_price (self : Stock) : M float :=
  i <-- randint 1 1000 ;;
  c <-- randint 1 100 ;;
  r <-- of_result (py_int_truediv c 100) ;;
  fi <-- of_result (of_int i) ;;
  ret (fadd fi r).

Definition get_price (self : Stock) : M float := _generate_random_price self.

(** ** Python list indexing *)

Definition py_index {A} (l : list A) (i : Z) : option nat :=
  let i' := if i <? 0 then i + Z.of_nat (length l) else i in
  if (0 <=? i') && (i' <? Z.of_nat (length l)) then Some (Z.to_nat i') else None.

(** [l[i]]. *)
Definition py_getitem {A} (l : list A) (i : Z) : M A :=
  match py_index l i with
  | Some k => match l !! k with Some x => ret x | None => raise IndexError end
  | None => raise IndexError
  end.

(** [l[i] = x]. *)
Definition py_setitem {A} (l : list A) (i : Z) (x : A) : M (list A) :=
  match py_index l i with
  | Some k => ret (<[k := x]> l)
  | None => raise IndexError
  end.

(** [random.sample(population, k)] on CPython's pool branch, the branch
    taken whenever [len(population) <= 21] ([setsize] is at least 21):
<<
    pool = list(population)
    for i in range(k):
        j = randbelow(n - i)
        result[i] = pool[j]
        pool[j] = pool[n - i - 1]
>> *)
Fixpoint sample_loop (n : Z) (i : nat) (todo : nat) (pool result : list pystr)
  : M (list pystr) :=
  match todo with
  | O => ret result
  | S todo' =>
      j <-- randbelow (n - Z.of_nat i) ;;
      x <-- py_getitem pool j ;;
      y <-- py_getitem pool (n - Z.of_nat i - 1) ;;
      pool' <-- py_setitem pool j y ;;
      sample_loop n (S i) todo' pool' (result ++ [x])
  end.

Definition sample (population : list pystr) (k : Z) : M (list pystr) :=
  let n := Z.of_nat (length population) in
  if (0 <=? k) && (k <=? n) then sample_loop n 0 (Z.to_nat k) population []
  else raise ValueError.

(** ** Class [Portfolio]: construction *)

Definition CUSTOM_RANDOM_STOCKS : list pystr :=
  map lit ["MSFT"; "AAPL"; "AMZN"; "GOOGL"; "TSLA"; "META"; "NVDA"; "FINTUAL"].

Record Portfolio := mkPortfolio { stocks : list Stock }.

(** [Portfolio._generate_random_stocks]. *)
Definition _generate_random_stocks : M (list Stock) :=
  stock_count <-- randint 1 (Z.of_nat (length CUSTOM_RANDOM_STOCKS)) ;;
  names <-- sample CUSTOM_RANDOM_STOCKS stock_count ;;
  ret (map mkStock names).

(** [Portfolio.__init__]: [self.stocks = self._generate_random_stocks()]. *)
Definition Portfolio_init : M Portfolio :=
  s <-- _generate_random_stocks ;; ret (mkPortfolio s).

(** ** Dates: [datetime] at midnight, as [datetime.strptime] builds it *)

Record datetime := mkDatetime { year : Z; month : Z; day : Z }.

Definition _is_leap (y : Z) : bool :=
  (y mod 4 =? 0) && (negb (y mod 100 =? 0) || (y mod 400 =? 0)).

Definition _DAYS_IN_MONTH : list Z :=
  [-1; 31; 28; 31; 30; 31; 30; 31; 31; 30; 31; 30; 31].

Definition _DAYS_BEFORE_MONTH : list Z :=
  [-1; 0; 31; 59; 90; 120; 151; 181; 212; 243; 273; 304; 334].

Definition _days_in_month (y m : Z) : Z :=
  if (m =? 2) && _is_leap y then 29 else nth (Z.to_nat m) _DAYS_IN_MONTH 0.

Definition _days_before_year (y : Z) : Z :=
  let y := y - 1 in y * 365 + y / 4 - y / 100 + y / 400.

Definition _days_before_month (y m : Z) : Z :=
  nth (Z.to_nat m) _DAYS_BEFORE_MONTH 0 + (if (2 <? m) && _is_leap y then 1 else 0).

Definition _ymd2ord (y m d : Z) : Z :=
  _days_before_year y + _days_before_month y m + d.

Definition toordinal (d : datetime) : Z := _ymd2ord (year d) (month d) (day d).

(** [_check_date_fields]: MINYEAR = 1, MAXYEAR = 9999. *)
Definition _check_date_fields (y m d : Z) : bool :=
  (1 <=? y) && (y <=? 9999) && (1 <=? m) && (m <=? 12)
  && (1 <=? d) && (d <=? _days_in_month y m).

(** [(end_date - start_date).days] for two datetimes at midnight. *)
Definition timedelta_days (end_date start_date : datetime) : Z :=
  toordinal end_date - toordinal start_date.

(** ** [datetime.strptime(s, "%Y-%m-%d")]

    CPython's [_strptime] compiles the format into the regular expression
<<
    (?P<Y>\d\d\d\d)-(?P<m>1[0-2]|0[1-9]|[1-9])-(?P<d>3[0-1]|[1-2]\d|0[1-9]|[1-9]| [1-9])
>>
    (with IGNORECASE, which changes nothing for these classes), matches it
    at the start of the string with [re.match] (backtracking through the
    alternatives in order), raises ValueError when nothing matches or when
    unconverted data remains, converts the groups with [int] and raises
    ValueError when [datetime_date(year, month, day)] is out of range.
    [\d] matches any Unicode decimal digit, which [int] converts; the
    other classes are ASCII ranges. *)

(** The code point of the digit zero of each block of ten decimal digits
    (Unicode 14.0, category Nd); the digit [v] of the block [z] is
    [z + v]. *)
Definition nd_zeros : list Z :=
  [48; 1632; 1776; 1984; 2406; 2534; 2662; 2790; 2918; 3046; 3174; 3302;
   3430; 3558; 3664; 3792; 3872; 4160; 4240; 6112; 6160; 6470; 6608;
   6784; 6800; 6992; 7088; 7232; 7248; 42528; 43216; 43264; 43472;
   43504; 43600; 44016; 65296; 66720; 68912; 69734; 69872; 69942; 70096;
   70384; 70736; 70864; 71248; 71360; 71472; 71904; 72016; 72784; 73040;
   73120; 92768; 92864; 93008; 120782; 120792; 120802; 120812; 120822;
   123200; 123632; 125264; 130032].

Fixpoint decimal_in (zs : list Z) (c : Z) : option Z :=
  match zs with
  | [] => None
  | z :: zs' => if (z <=? c) && (c <=? z + 9) then Some (c - z) else decimal_in zs' c
  end.

(** [unicodedata.decimal(c)]: the value of a decimal digit. *)
Definition decimal (c : Z) : option Z := decimal_in nd_zeros c.

Definition in_range (c lo hi : Z) : bool := (lo <=? c) && (c <=? hi).

(** The value of an ASCII digit. *)
Definition digit (c : Z) : Z := c - 48.

(** [\d\d\d\d], converted with [int]. *)
Definition match_Y (s : pystr) : option (Z * pystr) :=
  match s with
  | a :: b :: c :: d :: r =>
      match decimal a, decimal b, decimal c, decimal d with
      | Some va, Some vb, Some vc, Some vd =>
          Some (1000 * va + 100 * vb + 10 * vc + vd, r)
      | _, _, _, _ => None
      end
  | _ => None
  end.

(** The literal [-]. *)
Definition match_dash (s : pystr) : option pystr :=
  match s with
  | a :: r => if a =? 45 then Some r else None
  | [] => None
  end.

(** An alternative [[lo1-hi1][lo2-hi2]], converted with [int]. *)
Definition alt2 (lo1 hi1 lo2 hi2 : Z) (s : pystr) : list (Z * pystr) :=
  match s with
  | a :: b :: r =>
      if in_range a lo1 hi1 && in_range b lo2 hi2
      then [(10 * digit a + digit b, r)] else []
  | _ => []
  end.

(** The alternative [[1-2]\d]. *)
Definition alt_nd (s : pystr) : list (Z * pystr) :=
  match s with
  | a :: b :: r =>
      if in_range a 49 50 then
        match decimal b with Some vb => [(10 * digit a + vb, r)] | None => [] end
      else []
  | _ => []
  end.

(** An alternative [[lo-hi]]. *)
Definition alt1 (lo hi : Z) (s : pystr) : list (Z * pystr) :=
  match s with
  | a :: r => if in_range a lo hi then [(digit a, r)] else []
  | [] => []
  end.

(** The alternative [ [1-9]]: [int(" 5") = 5]. *)
Definition alt_space (s : pystr) : list (Z * pystr) :=
  match s with
  | a :: b :: r =>
      if (a =? 32) && in_range b 49 57 then [(digit b, r)] else []
  | _ => []
  end.

(** The group [m]: [1[0-2]|0[1-9]|[1-9]], the matching alternatives in
    the order the regex engine tries them. *)
Definition alts_m (s : pystr) : list (Z * pystr) :=
  alt2 49 49 48 50 s ++ alt2 48 48 49 57 s ++ alt1 49 57 s.

(** The group [d]: [3[0-1]|[1-2]\d|0[1-9]|[1-9]| [1-9]]. *)
Definition alts_d (s : pystr) : list (Z * pystr) :=
  alt2 51 51 48 49 s ++ alt_nd s ++ alt2 48 48 49 57 s
  ++ alt1 49 57 s ++ alt_space s.

(** Backtracking: the first alternative whose continuation matches. *)
Fixpoint first_success {A B} (l : list A) (k : A -> option B) : option B :=
  match l with
  | [] => None
  | a :: l' => match k a with Some b => Some b | None => first_success l' k end
  end.

(** [re.match]: the groups and the unmatched rest of the string. *)
Definition date_regex_match (s : pystr) : option (Z * Z * Z * pystr) :=
  match match_Y s with
  | None => None
  | Some (y, r1) =>
      match match_dash r1 with
      | None => None
      | Some r2 =>
          first_success (alts_m r2) (fun '(m, r3) =>
            match match_dash r3 with
            | None => None
            | Some r4 => first_success (alts_d r4) (fun '(d, r5) => Some (y, m, d, r5))
            end)
      end
  end.

Definition strptime (date_string : pystr) : exn + datetime :=
  match date_regex_match date_string with
  | None => inl ValueError
  | Some (y, m, d, rest) =>
      match rest with
      | _ :: _ => inl ValueError
      | [] => if _check_date_fields y m d then inr (mkDatetime y m d) else inl ValueError
      end
  end.

(** ** Class [InvalidDateFormat] and [_validate_date_format] *)

Definition MESSAGE_ERROR : pystr :=
  lit "Invalid date format. Please use the format yyyy-mm-dd.".

(** [InvalidDateFormat(date)]: the exception's message
    [f"{date} is not a valid date. {MESSAGE_ERROR}"]. *)
Definition mk_InvalidDateFormat (date : pystr) : exn :=
  InvalidDateFormat (date ++ lit " is not a valid date. " ++ MESSAGE_ERROR).

(** [try: ... except ValueError: ...]. *)
Definition except_ValueError {A} (body handler : M A) : M A :=
  fun w => match body w with
           | (inl ValueError, w') => handler w'
           | r => r
           end.

Definition _validate_date_format (date_str : pystr) : M datetime :=
  except_ValueError (of_result (strptime date_str))
                    (raise (mk_InvalidDateFormat date_str)).

(** ** Date arithmetic *)

(** [Portfolio._calculate_days_difference]: [abs((end_date - start_date).days)]. *)
Definition _calculate_days_difference (start_date end_date : datetime) : Z :=
  Z.abs (timedelta_days end_date start_date).

(** [Portfolio._calculate_years_difference]: [days / 365], int / int. *)
Definition _calculate_years_difference (start_date end_date : datetime) : M float :=
  of_result (py_int_truediv (_calculate_days_difference start_date end_date) 365).

(** ** Profit arithmetic *)

(** [Portfolio._calculate_profit_percentage]:
    [(final_price - initial_price) / initial_price * 100]. *)
Definition _calculate_profit_percentage (initial_price final_price : float) : M float :=
  q <-- of_result (py_fdiv (fsub final_price initial_price) initial_price) ;;
  ret (fmul q f100).

Section Pow.

(** Python's [x ** y] on floats. *)
Variable py_pow : float -> float -> exn + float.

(** [Portfolio._calculate_annualized_return]:
    [((final_price / initial_price) ** (1 / years) - 1) * 100], operands
    evaluated left to right. *)
Definition _calculate_annualized_return (initial_price final_price years : float)
  : M float :=
  ratio <-- of_result (py_fdiv final_price initial_price) ;;
  e <-- of_result (py_fdiv f1 years) ;;
  p <-- of_result (py_pow ratio e) ;;
  ret (fmul (fsub p f1) f100).

End Pow.

(** [Portfolio._get_portfolio_value]:
    [sum(stock.get_price() for stock in self.stocks)].  [sum] starts from
    the int [0], and [0 + x] converts it to [+0.0]; an empty portfolio
    would sum to the int [0], which behaves as [+0.0] in every later
    operation of the code. *)
Fixpoint sum_prices (acc : float) (l : list Stock) : M float :=
  match l with
  | [] => ret acc
  | s :: l' => p <-- get_price s ;; sum_prices (fadd acc p) l'
  end.

Definition _get_portfolio_value (self : Portfolio) : M float :=
  sum_prices (Fzero false) (stocks self).

(** ** Formatting [{value:.2f}]: the exact value rounded half to even *)

Fixpoint dec_aux (fuel : nat) (n : Z) (acc : pystr) : pystr :=
  match fuel with
  | O => acc
  | S f =>
      let acc' := (48 + n mod 10) :: acc in
      if n <? 10 then acc' else dec_aux f (n / 10) acc'
  end.

(** Decimal digits of a non-negative integer. *)
Definition Z_to_dec (n : Z) : pystr := dec_aux (S (Z.to_nat (Z.log2 n))) n [].

Definition format_2f (x : Q) : pystr :=
  let n := round_half_even (Qabs x * inject_Z 100) in
  (if Qnum x <? 0 then [45] else []) ++ Z_to_dec (n / 100) ++ [46]
  ++ Z_to_dec (n mod 100 / 10) ++ Z_to_dec (n mod 10).

Definition fmt_2f (x : float) : pystr :=
  match x with
  | Fnan => lit "nan"
  | Finf neg => if neg then lit "-inf" else lit "inf"
  | Fzero neg => if neg then lit "-0.00" else lit "0.00"
  | Ffin q => format_2f q
  end.

(** ** The reporting operations *)

Definition calculate_profit_between (self : Portfolio)
    (start_date_str end_date_str : pystr) : M unit :=
  _ <-- _validate_date_format start_date_str ;;
  _ <-- _validate_date_format end_date_str ;;
  initial_price <-- _get_portfolio_value self ;;
  final_price <-- _get_portfolio_value self ;;
  total_profit <-- _calculate_profit_percentage initial_price final_price ;;
  print (lit "Profit between " ++ start_date_str ++ lit " and " ++ end_date_str
         ++ lit ": " ++ fmt_2f total_profit ++ lit "%").

Definition calculate_profit_annualized (py_pow : float -> float -> exn + float)
    (self : Portfolio) (start_date_str end_date_str : pystr) : M unit :=
  start_date <-- _validate_date_format start_date_str ;;
  end_date <-- _validate_date_format end_date_str ;;
  initial_price <-- _get_portfolio_value self ;;
  final_price <-- _get_portfolio_value self ;;
  years <-- _calculate_years_difference start_date end_date ;;
  total_profit <-- _calculate_profit_percentage initial_price final_price ;;
  annualized_profit <--
    _calculate_annualized_return py_pow initial_price final_price years ;;
  print (lit "Profit since " ++ start_date_str ++ lit ": " ++ fmt_2f total_profit
         ++ lit "%") ;;;
  print (lit "Annualized profit: " ++ fmt_2f annualized_profit ++ lit "%").

(** ** The strings [%Y-%m-%d] accepts, read off the regex

    A year of exactly four decimal digits (any script), [-], a month 1-12
    written with one or two ASCII digits, [-], and a day 1-31 written with
    one or two ASCII digits, or as [1] or [2] followed by a decimal digit of
    any script, or as a space and an ASCII digit 1-9; the values are the
    decimal values of the digits. *)

Fixpoint digits_value (s : pystr) (acc : Z) : option Z :=
  match s with
  | [] => Some acc
  | c :: r => match decimal c with
              | Some v => digits_value r (10 * acc + v)
              | None => None
              end
  end.

Definition ascii_digits (s : pystr) : Prop := Forall (fun c => 48 <= c <= 57) s.

Definition year_text (ys : pystr) (y : Z) : Prop :=
  length ys = 4%nat /\ digits_value ys 0 = Some y.

Definition month_text (ms : pystr) (m : Z) : Prop :=
  (length ms = 1%nat \/ length ms = 2%nat) /\ ascii_digits ms /\
  digits_value ms 0 = Some m /\ 1 <= m <= 12.

Definition day_text (ds : pystr) (d : Z) : Prop :=
  ((length ds = 1%nat \/ length ds = 2%nat) /\ ascii_digits ds /\
   digits_value ds 0 = Some d /\ 1 <= d <= 31)
  \/ (exists a b, ds = [a; b] /\ (a = 49 \/ a = 50) /\ digits_value ds 0 = Some d)
  \/ (exists c, ds = [32; c] /\ 49 <= c <= 57 /\ d = c - 48).

Definition date_text (s : pystr) (y m d : Z) : Prop :=
  exists ys ms ds, s = ys ++ lit "-" ++ ms ++ lit "-" ++ ds /\
    year_text ys y /\ month_text ms m /\ day_text ds d.

(** ** Evaluation helpers and sample inputs *)

Definition advance (w : World) (k : nat) : World :=
  mkWorld (rng w) (pos w + k) (out w).

(** A world where every raw draw is 0. *)
Definition w_zero : World := mkWorld (fun _ => 0) 0 [].

(** A world whose first two draws give [randint(1, 1000) = 1000] and
    [randint(1, 100) = 100]. *)
Definition w_max_price : World :=
  mkWorld (fun n => if Nat.eqb n 0 then 999 else 99) 0 [].

(** A world whose draws are [0; 0; 6; 99; 7; 2] (then 0): a portfolio of
    MSFT alone, valued at 8.00 and then at 8.03. *)
Definition w_prices : World :=
  mkWorld (fun n => nth n [0; 0; 6; 99; 7; 2] 0) 0 [].

Definition p_msft : Portfolio := mkPortfolio [mkStock (lit "MSFT")].

(** ** Invariant of the sum of prices: after [k] prices, [+0.0] if [k = 0],
    else a finite double in [[1.01, 2002 (2 ^ k - 1)]]. *)

Definition sum_inv (k : nat) (acc : float) : Prop :=
  (k = 0%nat /\ acc = Fzero false) \/
  exists a, acc = Ffin a /\ (101 # 100 <= a)%Q /\
    (a <= inject_Z (2002 * (2 ^ Z.of_nat k - 1)))%Q.


(** * Properties of the model *)

(** ** Rounding to nearest, ties to even *)

Lemma rhe_Z (a : Z) (b : positive) :
  let n := round_half_even (a # b) in
  (2 * n - 1) * Zpos b <= 2 * a <= (2 * n + 1) * Zpos b /\
  (2 * a = (2 * n + 1) * Zpos b \/ 2 * a = (2 * n - 1) * Zpos b -> Z.even n = true).
Proof.
  unfold round_half_even. cbn [Qnum Qden].
  pose proof (Z.div_mod a (Zpos b) ltac:(lia)).
  pose proof (Z.mod_pos_bound a (Zpos b) ltac:(lia)).
  set (f := a / Zpos b) in *. set (r := a mod Zpos b) in *.
  destruct (Z.ltb_spec (2 * r) (Zpos b)); [|destruct (Z.ltb_spec (Zpos b) (2 * r))].
  - split; [nia|]. intros [H3|H3]; nia.
  - split; [nia|]. intros [H3|H3]; nia.
  - destruct (Z.even f) eqn:E.
    + split; [nia|]. auto.
    + split; [nia|]. rewrite Z.even_add, E. auto.
Qed.

Lemma rhe_spec (q : Q) :
  (inject_Z (round_half_even q) - (1 # 2) <= q)%Q /\
  (q <= inject_Z (round_half_even q) + (1 # 2))%Q /\
  ((q == inject_Z (round_half_even q) + (1 # 2))%Q \/
   (q == inject_Z (round_half_even q) - (1 # 2))%Q -> Z.even (round_half_even q) = true).
Proof.
  destruct q as [a b]. pose proof (rhe_Z a b) as H. cbv zeta in H.
  set (n := round_half_even (a # b)) in *.
  unfold Qle, Qeq, Qminus, Qplus, Qopp, inject_Z. cbn [Qnum Qden].
  rewrite ?Pos2Z.inj_mul. split; [nia|]. split; [nia|].
  intros Hc. apply H. destruct Hc; [left|right]; nia.
Qed.

Lemma rhe_mono (x y : Q) : (x <= y)%Q -> round_half_even x <= round_half_even y.
Proof.
  intros Hxy.
  destruct (rhe_spec x) as (Hx1 & Hx2 & Hx3). destruct (rhe_spec y) as (Hy1 & Hy2 & Hy3).
  set (n := round_half_even x) in *. set (m := round_half_even y) in *.
  destruct (Z_le_gt_dec n m) as [|Hgt]; [easy|exfalso].
  assert (H1 : (inject_Z (m + 1) <= inject_Z n)%Q) by (rewrite <- Zle_Qle; lia).
  rewrite inject_Z_plus in H1. change (inject_Z 1) with 1%Q in H1.
  assert (H2 : (inject_Z n <= inject_Z (m + 1))%Q) by (rewrite inject_Z_plus; change (inject_Z 1) with 1%Q; lra).
  rewrite <- Zle_Qle in H2. assert (n = m + 1) as Hn by lia.
  assert (Ex : Z.even n = true) by (apply Hx3; right; lra).
  assert (Ey : Z.even m = true) by (apply Hy3; left; rewrite Hn, inject_Z_plus in *; change (inject_Z 1) with 1%Q in *; lra).
  rewrite Hn, Z.even_add, Ey in Ex. discriminate.
Qed.

Lemma rhe_ge_int (k : Z) (x : Q) : (inject_Z k <= x)%Q -> k <= round_half_even x.
Proof.
  intros H. destruct (rhe_spec x) as (_ & H1 & _).
  assert (H2 : (inject_Z k < inject_Z (round_half_even x + 1))%Q)
    by (rewrite inject_Z_plus; change (inject_Z 1) with 1%Q; lra).
  rewrite <- Zlt_Qlt in H2. lia.
Qed.

Lemma rhe_le_int (k : Z) (x : Q) : (x <= inject_Z k)%Q -> round_half_even x <= k.
Proof.
  intros H. destruct (rhe_spec x) as (H1 & _).
  assert (H2 : (inject_Z (round_half_even x) < inject_Z (k + 1))%Q)
    by (rewrite inject_Z_plus; change (inject_Z 1) with 1%Q; lra).
  rewrite <- Zlt_Qlt in H2. lia.
Qed.

Lemma rhe_le_2x (x : Q) : (0 < x)%Q -> (inject_Z (round_half_even x) <= 2 * x)%Q.
Proof.
  intros H. destruct (rhe_spec x) as (H1 & _).
  destruct (Qlt_le_dec x (1 # 2)) as [Hs|Hs]; [|lra].
  assert (round_half_even x <= 0).
  { assert (H2 : (inject_Z (round_half_even x) < inject_Z 1)%Q) by (change (inject_Z 1) with 1%Q; lra).
    rewrite <- Zlt_Qlt in H2. lia. }
  assert (H3 : (inject_Z (round_half_even x) <= inject_Z 0)%Q) by (rewrite <- Zle_Qle; lia).
  change (inject_Z 0) with 0%Q in H3. lra.
Qed.


Lemma pow2_pos (e : Z) : (0 < pow2 e)%Q.
Proof. unfold pow2. apply Qpower_0_lt. reflexivity. Qed.

Lemma pow2_add (a b : Z) : (pow2 (a + b) == pow2 a * pow2 b)%Q.
Proof. unfold pow2. apply Qpower_plus. discriminate. Qed.

Lemma pow2_mono (a b : Z) : a <= b -> (pow2 a <= pow2 b)%Q.
Proof. intros H. unfold pow2. apply Qpower_le_compat_l; [easy|discriminate]. Qed.

Lemma pow2_Z (e : Z) : 0 <= e -> (pow2 e == inject_Z (2 ^ e))%Q.
Proof. intros H. unfold pow2. rewrite (Zpower_Qpower 2 e H). reflexivity. Qed.

Lemma Qlog2_floor_spec (q : Q) :
  (0 < q)%Q -> (pow2 (Qlog2_floor q) <= q)%Q /\ (q < pow2 (Qlog2_floor q + 1))%Q.
Proof.
  intros Hq. destruct q as [a b].
  assert (Ha : 0 < a) by (unfold Qlt in Hq; simpl in Hq; lia).
  unfold Qlog2_floor. cbn [Qnum Qden].
  set (la := Z.log2 a). set (lb := Z.log2 (Zpos b)).
  destruct (Z.log2_spec a Ha) as [Ha1 Ha2].
  destruct (Z.log2_spec (Zpos b) ltac:(lia)) as [Hb1 Hb2].
  fold la in Ha1, Ha2. fold lb in Hb1, Hb2.
  assert (Hla : 0 <= la) by apply Z.log2_nonneg.
  assert (Hlb : 0 <= lb) by apply Z.log2_nonneg.
  assert (EA : (a # b == inject_Z a / inject_Z (Zpos b))%Q).
  { unfold Qeq, Qdiv, Qmult, Qinv, inject_Z. simpl. lia. }
  assert (A1 : (pow2 la <= inject_Z a)%Q) by (rewrite pow2_Z by easy; rewrite <- Zle_Qle; lia).
  assert (A2 : (inject_Z a < pow2 (la + 1))%Q) by (rewrite pow2_Z by lia; rewrite <- Zlt_Qlt; lia).
  assert (B1 : (pow2 lb <= inject_Z (Zpos b))%Q) by (rewrite pow2_Z by easy; rewrite <- Zle_Qle; lia).
  assert (B2 : (inject_Z (Zpos b) < pow2 (lb + 1))%Q) by (rewrite pow2_Z by lia; rewrite <- Zlt_Qlt; lia).
  pose proof (pow2_pos lb) as Plb. pose proof (pow2_pos (la - lb)) as Pk.
  assert (Bpos : (0 < inject_Z (Zpos b))%Q) by lra.
  (* upper: q < pow2 (la - lb + 1) *)
  assert (U : (a # b < pow2 (la - lb + 1))%Q).
  { rewrite EA. apply Qlt_shift_div_r; [easy|].
    assert (E1 : (pow2 (la + 1) == pow2 (la - lb + 1) * pow2 lb)%Q)
      by (rewrite <- pow2_add; f_equiv; lia).
    pose proof (pow2_pos (la - lb + 1)).
    assert (pow2 (la - lb + 1) * pow2 lb <= pow2 (la - lb + 1) * inject_Z (Zpos b))%Q
      by (apply Qmult_le_l; lra).
    lra. }
  (* lower: pow2 (la - lb - 1) < q *)
  assert (L : (pow2 (la - lb - 1) < a # b)%Q).
  { rewrite EA. apply Qlt_shift_div_l; [easy|].
    assert (E1 : (pow2 la == pow2 (la - lb - 1) * pow2 (lb + 1))%Q)
      by (rewrite <- pow2_add; f_equiv; lia).
    pose proof (pow2_pos (la - lb - 1)).
    assert (pow2 (la - lb - 1) * inject_Z (Zpos b) < pow2 (la - lb - 1) * pow2 (lb + 1))%Q
      by (apply Qmult_lt_l; lra).
    lra. }
  destruct (Qle_bool (pow2 (la - lb)) (a # b)) eqn:E.
  - apply Qle_bool_iff in E. split; [easy|]. easy.
  - assert (E' : (a # b < pow2 (la - lb))%Q).
    { apply Qnot_le_lt. intros H. apply Qle_bool_iff in H. congruence. }
    split; [lra|]. replace (la - lb - 1 + 1) with (la - lb) by lia. easy.
Qed.

Lemma Qlog2_floor_mono (x y : Q) :
  (0 < x)%Q -> (x <= y)%Q -> Qlog2_floor x <= Qlog2_floor y.
Proof.
  intros Hx Hxy. destruct (Qlog2_floor_spec x Hx) as [Hx1 _].
  destruct (Qlog2_floor_spec y ltac:(lra)) as [_ Hy2].
  destruct (Z_le_gt_dec (Qlog2_floor x) (Qlog2_floor y)) as [|H]; [easy|exfalso].
  pose proof (pow2_mono (Qlog2_floor y + 1) (Qlog2_floor x) ltac:(lia)). lra.
Qed.

Lemma div_pow2_le (x y : Q) (e : Z) : (x <= y)%Q -> (x / pow2 e <= y / pow2 e)%Q.
Proof.
  intros H. unfold Qdiv. apply Qmult_le_compat_r; [easy|].
  apply Qinv_le_0_compat. pose proof (pow2_pos e). lra.
Qed.

Lemma mul_pow2_le (a b : Z) (e : Z) : a <= b -> (inject_Z a * pow2 e <= inject_Z b * pow2 e)%Q.
Proof.
  intros H. apply Qmult_le_compat_r; [rewrite <- Zle_Qle; easy|].
  pose proof (pow2_pos e). lra.
Qed.

Lemma div_pow2_mul (x : Q) (e : Z) : (x / pow2 e * pow2 e == x)%Q.
Proof. pose proof (pow2_pos e). field. lra. Qed.

Lemma float_exp_mono (x y : Q) : (0 < x)%Q -> (x <= y)%Q -> float_exp x <= float_exp y.
Proof. intros. unfold float_exp. pose proof (Qlog2_floor_mono x y H H0). lia. Qed.

Lemma round_pos_nonneg (x : Q) : (0 < x)%Q -> (0 <= round_pos x)%Q.
Proof.
  intros H. unfold round_pos. set (e := float_exp x).
  pose proof (pow2_pos e).
  assert (0 <= round_half_even (x / pow2 e)).
  { apply rhe_ge_int. change (inject_Z 0) with 0%Q.
    apply Qle_shift_div_l; [easy|]. lra. }
  pose proof (mul_pow2_le 0 _ e H1). change (inject_Z 0) with 0%Q in H2. lra.
Qed.

Lemma round_pos_le_2x (x : Q) : (0 < x)%Q -> (round_pos x <= 2 * x)%Q.
Proof.
  intros H. unfold round_pos. set (e := float_exp x).
  pose proof (pow2_pos e).
  assert (Hd : (0 < x / pow2 e)%Q) by (apply Qlt_shift_div_l; lra).
  pose proof (rhe_le_2x _ Hd).
  assert (inject_Z (round_half_even (x / pow2 e)) * pow2 e <= 2 * (x / pow2 e) * pow2 e)%Q
    by (apply Qmult_le_compat_r; lra).
  rewrite <- Qmult_assoc, div_pow2_mul in H2. easy.
Qed.

Lemma round_pos_mono (x y : Q) : (0 < x)%Q -> (x <= y)%Q -> (round_pos x <= round_pos y)%Q.
Proof.
  intros Hx Hxy. unfold round_pos.
  pose proof (float_exp_mono x y Hx Hxy) as He.
  set (ex := float_exp x) in *. set (ey := float_exp y) in *.
  destruct (Z.eq_dec ex ey) as [E|Ne].
  - rewrite E. apply mul_pow2_le. apply rhe_mono. apply div_pow2_le. easy.
  - assert (Lt : ex < ey) by lia.
    destruct (Qlog2_floor_spec x Hx) as [_ Hx2].
    destruct (Qlog2_floor_spec y ltac:(lra)) as [Hy1 _].
    assert (Eey : ey = Qlog2_floor y - 52) by (unfold ey, float_exp in *; lia).
    assert (Hex : Qlog2_floor x - 52 <= ex) by (unfold ex, float_exp; lia).
    pose proof (pow2_pos ex). pose proof (pow2_pos ey).
    (* round x <= pow2 (ex + 53) *)
    assert (R1 : (inject_Z (round_half_even (x / pow2 ex)) * pow2 ex <= inject_Z (2 ^ 53) * pow2 ex)%Q).
    { apply mul_pow2_le. apply rhe_le_int. apply Qle_shift_div_r; [easy|].
      rewrite <- pow2_Z by lia. rewrite <- pow2_add.
      pose proof (pow2_mono (Qlog2_floor x + 1) (53 + ex) ltac:(lia)). lra. }
    (* pow2 (ey + 52) <= round y *)
    assert (R2 : (inject_Z (2 ^ 52) * pow2 ey <= inject_Z (round_half_even (y / pow2 ey)) * pow2 ey)%Q).
    { apply mul_pow2_le. apply rhe_ge_int. apply Qle_shift_div_l; [easy|].
      rewrite <- pow2_Z by lia. rewrite <- pow2_add.
      replace (52 + ey) with (Qlog2_floor y) by lia. easy. }
    assert (R3 : (inject_Z (2 ^ 53) * pow2 ex <= inject_Z (2 ^ 52) * pow2 ey)%Q).
    { rewrite <- !pow2_Z by lia. rewrite <- !pow2_add. apply pow2_mono. lia. }
    lra.
Qed.

(** ** Characters and digits *)

Lemma in_range_spec (c lo hi : Z) : in_range c lo hi = true <-> lo <= c <= hi.
Proof. unfold in_range. rewrite andb_true_iff, !Z.leb_le. done. Qed.

Lemma in_range_false (c lo hi : Z) : in_range c lo hi = false -> c < lo \/ hi < c.
Proof.
  unfold in_range. intros H. apply andb_false_iff in H.
  destruct H as [H1|H1]; apply Z.leb_gt in H1; lia.
Qed.

Ltac zranges :=
  repeat match goal with
  | |- context [in_range ?c ?lo ?hi] =>
      let E := fresh "E" in
      destruct (in_range c lo hi) eqn:E;
      [apply in_range_spec in E | apply in_range_false in E]
  | |- context [?a =? ?b] => destruct (Z.eqb_spec a b)
  end.

Lemma decimal_in_range (zs : list Z) (c v : Z) : decimal_in zs c = Some v -> 0 <= v <= 9.
Proof.
  induction zs as [|z zs IH]; simpl; [discriminate|].
  destruct (Z.leb_spec z c), (Z.leb_spec c (z + 9)); simpl; try apply IH.
  intros Hs. injection Hs as <-. lia.
Qed.

Lemma decimal_range (c v : Z) : decimal c = Some v -> 0 <= v <= 9.
Proof. apply decimal_in_range. Qed.

Lemma decimal_in_hit (z : Z) (zs : list Z) (c : Z) :
  z <= c <= z + 9 -> decimal_in (z :: zs) c = Some (c - z).
Proof.
  intros Hc. cbn [decimal_in].
  destruct (Z.leb_spec z c), (Z.leb_spec c (z + 9)); simpl; [done|lia..].
Qed.

Lemma decimal_ascii (c : Z) : 48 <= c <= 57 -> decimal c = Some (digit c).
Proof.
  intros Hc. unfold decimal, nd_zeros, digit. apply decimal_in_hit. lia.
Qed.

Lemma digits_value_1 (a v : Z) : digits_value [a] 0 = Some v -> decimal a = Some v.
Proof. cbn [digits_value]. destruct (decimal a); [|discriminate]. intros H. injection H as <-. done. Qed.

Lemma digits_value_2 (a b v : Z) :
  digits_value [a; b] 0 = Some v ->
  exists va vb, decimal a = Some va /\ decimal b = Some vb /\ v = 10 * va + vb.
Proof.
  cbn [digits_value]. destruct (decimal a) as [va|], (decimal b) as [vb|]; try discriminate.
  intros H. injection H as <-. exists va, vb. repeat split; lia.
Qed.

Lemma one_ascii_value (a : Z) : 48 <= a <= 57 -> digits_value [a] 0 = Some (digit a).
Proof. intros H. cbn [digits_value]. rewrite decimal_ascii by done. done. Qed.

Lemma two_ascii_value (a b : Z) :
  48 <= a <= 57 -> 48 <= b <= 57 -> digits_value [a; b] 0 = Some (10 * digit a + digit b).
Proof.
  intros Ha Hb. cbn [digits_value]. rewrite !decimal_ascii by done; f_equal; lia.
Qed.

Lemma ascii_digits_1 (a : Z) : ascii_digits [a] <-> 48 <= a <= 57.
Proof.
  unfold ascii_digits. rewrite Forall_cons, Forall_nil. tauto.
Qed.

Lemma ascii_digits_2 (a b : Z) : ascii_digits [a; b] <-> 48 <= a <= 57 /\ 48 <= b <= 57.
Proof.
  unfold ascii_digits. rewrite !Forall_cons, Forall_nil. tauto.
Qed.

Lemma lit_dash : lit "-" = [45].
Proof. reflexivity. Qed.

(** ** The date regex: what it matches is a [date_text] *)

Lemma match_Y_sound (s r : pystr) (y : Z) :
  match_Y s = Some (y, r) -> exists ys, s = ys ++ r /\ year_text ys y.
Proof.
  destruct s as [|a [|b [|c [|d r']]]]; simpl; try discriminate.
  destruct (decimal a) as [va|] eqn:Ea, (decimal b) as [vb|] eqn:Eb,
    (decimal c) as [vc|] eqn:Ec, (decimal d) as [vd|] eqn:Ed; try discriminate.
  intros H. injection H as <- <-.
  exists [a; b; c; d]. split; [done|]. split; [done|].
  simpl. rewrite Ea, Eb, Ec, Ed. f_equal. lia.
Qed.

Lemma match_dash_sound (s r : pystr) : match_dash s = Some r -> s = 45 :: r.
Proof.
  destruct s as [|a r']; simpl; [discriminate|].
  destruct (Z.eqb_spec a 45); [|discriminate]. intros H. injection H as <-. by subst.
Qed.

Lemma alt2_sound (lo1 hi1 lo2 hi2 : Z) (s r : pystr) (v : Z) :
  In (v, r) (alt2 lo1 hi1 lo2 hi2 s) ->
  exists a b, s = a :: b :: r /\ lo1 <= a <= hi1 /\ lo2 <= b <= hi2 /\
    v = 10 * digit a + digit b.
Proof.
  unfold alt2. destruct s as [|a [|b r']]; simpl; try tauto.
  destruct (in_range a lo1 hi1) eqn:Ea, (in_range b lo2 hi2) eqn:Eb; simpl; try tauto.
  intros [H|[]]. injection H as <- <-.
  apply in_range_spec in Ea, Eb. exists a, b. done.
Qed.

Lemma alt_nd_sound (s r : pystr) (v : Z) :
  In (v, r) (alt_nd s) ->
  exists a b vb, s = a :: b :: r /\ 49 <= a <= 50 /\ decimal b = Some vb /\
    v = 10 * digit a + vb.
Proof.
  unfold alt_nd. destruct s as [|a [|b r']]; simpl; try tauto.
  destruct (in_range a 49 50) eqn:Ea; simpl; [|tauto].
  destruct (decimal b) as [vb|] eqn:Eb; simpl; [|tauto].
  intros [H|[]]. injection H as <- <-.
  apply in_range_spec in Ea. exists a, b, vb. done.
Qed.

Lemma alt1_sound (lo hi : Z) (s r : pystr) (v : Z) :
  In (v, r) (alt1 lo hi s) -> exists a, s = a :: r /\ lo <= a <= hi /\ v = digit a.
Proof.
  unfold alt1. destruct s as [|a r']; simpl; try tauto.
  destruct (in_range a lo hi) eqn:Ea; simpl; try tauto.
  intros [H|[]]. injection H as <- <-. apply in_range_spec in Ea. exists a. done.
Qed.

Lemma alt_space_sound (s r : pystr) (v : Z) :
  In (v, r) (alt_space s) -> exists b, s = 32 :: b :: r /\ 49 <= b <= 57 /\ v = digit b.
Proof.
  unfold alt_space. destruct s as [|a [|b r']]; simpl; try tauto.
  destruct (Z.eqb_spec a 32), (in_range b 49 57) eqn:Eb; simpl; try tauto.
  intros [H|[]]. injection H as <- <-. apply in_range_spec in Eb. subst. exists b. done.
Qed.

Lemma alts_m_sound (s r : pystr) (m : Z) :
  In (m, r) (alts_m s) -> exists ms, s = ms ++ r /\ month_text ms m.
Proof.
  unfold alts_m. rewrite !in_app_iff.
  intros [H|[H|H]].
  1-2: apply alt2_sound in H as (a & b & -> & Ha & Hb & ->);
    exists [a; b]; split; [done|];
    split; [simpl; lia|]; split; [apply ascii_digits_2; lia|];
    split; [apply two_ascii_value; lia|unfold digit; lia].
  - apply alt1_sound in H as (a & -> & Ha & ->).
    exists [a]. split; [done|].
    split; [simpl; lia|]. split; [apply ascii_digits_1; lia|].
    split; [apply one_ascii_value; lia|unfold digit; lia].
Qed.

Lemma alts_d_sound (s r : pystr) (d : Z) :
  In (d, r) (alts_d s) -> exists ds, s = ds ++ r /\ day_text ds d.
Proof.
  unfold alts_d. rewrite !in_app_iff.
  intros [H|[H|[H|[H|H]]]].
  - apply alt2_sound in H as (a & b & -> & Ha & Hb & ->).
    exists [a; b]. split; [done|]. left.
    split; [simpl; lia|]. split; [apply ascii_digits_2; lia|].
    split; [apply two_ascii_value; lia|unfold digit; lia].
  - apply alt_nd_sound in H as (a & b & vb & -> & Ha & Hb & ->).
    exists [a; b]. split; [done|]. right. left.
    exists a, b. split; [done|]. split; [lia|].
    cbn [digits_value]. rewrite decimal_ascii by lia. rewrite Hb; f_equal; unfold digit; lia.
  - apply alt2_sound in H as (a & b & -> & Ha & Hb & ->).
    exists [a; b]. split; [done|]. left.
    split; [simpl; lia|]. split; [apply ascii_digits_2; lia|].
    split; [apply two_ascii_value; lia|unfold digit; lia].
  - apply alt1_sound in H as (a & -> & Ha & ->).
    exists [a]. split; [done|]. left.
    split; [simpl; lia|]. split; [apply ascii_digits_1; lia|].
    split; [apply one_ascii_value; lia|unfold digit; lia].
  - apply alt_space_sound in H as (b & -> & Hb & ->).
    exists [32; b]. split; [done|]. right. right.
    exists b. split; [done|]. split; [lia|done].
Qed.

Lemma first_success_sound {A B} (l : list A) (k : A -> option B) (b : B) :
  first_success l k = Some b -> exists a, In a l /\ k a = Some b.
Proof.
  induction l as [|a l IH]; simpl; [discriminate|].
  destruct (k a) eqn:E.
  - intros H. injection H as <-. eauto.
  - intros H. destruct (IH H) as (a' & ? & ?). eauto.
Qed.

Lemma date_regex_match_sound (s rest : pystr) (y m d : Z) :
  date_regex_match s = Some (y, m, d, rest) ->
  exists ys ms ds, s = ys ++ lit "-" ++ ms ++ lit "-" ++ ds ++ rest /\
    year_text ys y /\ month_text ms m /\ day_text ds d.
Proof.
  unfold date_regex_match.
  destruct (match_Y s) as [[y' r1]|] eqn:EY; [|discriminate].
  destruct (match_dash r1) as [r2|] eqn:ED1; [|discriminate].
  intros H. apply first_success_sound in H as ([m' r3] & Hm & H).
  destruct (match_dash r3) as [r4|] eqn:ED2; [|discriminate].
  apply first_success_sound in H as ([d' r5] & Hd & H).
  injection H as -> -> -> ->.
  apply match_Y_sound in EY as (ys & -> & Hy).
  apply match_dash_sound in ED1 as ->.
  apply alts_m_sound in Hm as (ms & -> & Hm).
  apply match_dash_sound in ED2 as ->.
  apply alts_d_sound in Hd as (ds & -> & Hd).
  exists ys, ms, ds. done.
Qed.

Lemma strptime_sound (s : pystr) (dt : datetime) :
  strptime s = inr dt ->
  date_text s (year dt) (month dt) (day dt) /\
  _check_date_fields (year dt) (month dt) (day dt) = true.
Proof.
  unfold strptime.
  destruct (date_regex_match s) as [[[[y m] d] rest]|] eqn:E; [|discriminate].
  destruct rest as [|c rest]; [|discriminate].
  destruct (_check_date_fields y m d) eqn:Ec; [|discriminate].
  intros H. injection H as <-. simpl. split; [|done].
  apply date_regex_match_sound in E as (ys & ms & ds & -> & ?).
  exists ys, ms, ds. rewrite app_nil_r. done.
Qed.

(** ** The date regex: every [date_text] is matched *)

Lemma match_Y_complete (ys r : pystr) (y : Z) :
  year_text ys y -> match_Y (ys ++ r) = Some (y, r).
Proof.
  intros [Hlen Hv].
  destruct ys as [|a [|b [|c [|d [|e ys]]]]]; simpl in Hlen; try discriminate.
  simpl in Hv. simpl.
  destruct (decimal a), (decimal b), (decimal c), (decimal d); try discriminate.
  injection Hv as <-. f_equal. f_equal. lia.
Qed.

Lemma alts_m_complete {B} (ms r : pystr) (m : Z) (k : Z * pystr -> option B) :
  month_text ms m ->
  (forall v c r', 48 <= c <= 57 -> k (v, c :: r') = None) ->
  first_success (alts_m (ms ++ 45 :: r)) k = k (m, 45 :: r).
Proof.
  intros (Hlen & Ha & Hv & Hm) Hk.
  destruct ms as [|a [|b [|c ms]]]; simpl in Hlen; try lia.
  - apply ascii_digits_1 in Ha. rewrite one_ascii_value in Hv by done.
    injection Hv as <-. unfold digit in Hm.
    unfold alts_m, alt2, alt1. simpl. zranges; simpl; try lia;
      destruct (k (digit a, 45 :: r)); done.
  - apply ascii_digits_2 in Ha as [Ha Hb]. rewrite two_ascii_value in Hv by done.
    injection Hv as <-. unfold digit in Hm.
    unfold alts_m, alt2, alt1. simpl. zranges; simpl; try lia;
      destruct (k (10 * digit a + digit b, 45 :: r)); try done;
      rewrite Hk; done.
Qed.

Lemma alts_d_complete (ds : pystr) (d : Z) :
  day_text ds d -> exists tl, alts_d ds = (d, []) :: tl.
Proof.
  intros [(Hlen & Ha & Hv & Hd) | [(a & b & -> & Hab & Hv) | (c & -> & Hc & ->)]].
  - destruct ds as [|a [|b [|c ds]]]; simpl in Hlen; try lia.
    + apply ascii_digits_1 in Ha. rewrite one_ascii_value in Hv by done.
      injection Hv as <-. unfold digit in Hd.
      unfold alts_d, alt2, alt_nd, alt1, alt_space. zranges; simpl; try lia;
      eexists; reflexivity.
    + apply ascii_digits_2 in Ha as [Ha Hb]. rewrite two_ascii_value in Hv by done.
      injection Hv as <-. unfold digit in Hd.
      unfold alts_d, alt2, alt_nd, alt1, alt_space.
      rewrite (decimal_ascii b) by done.
      zranges; simpl; try lia; eexists; reflexivity.
  - apply digits_value_2 in Hv as (va & vb & Ea & Eb & ->).
    assert (Ha : 48 <= a <= 57) by lia.
    rewrite decimal_ascii in Ea by done. injection Ea as <-.
    unfold alts_d, alt2, alt_nd, alt1, alt_space. rewrite Eb.
    zranges; simpl; try lia; eexists; reflexivity.
  - unfold alts_d, alt2, alt_nd, alt1, alt_space.
    zranges; simpl; try lia; eexists; reflexivity.
Qed.

Lemma match_dash_digit (c : Z) (r : pystr) :
  48 <= c <= 57 -> match_dash (c :: r) = None.
Proof. intros H. simpl. destruct (Z.eqb_spec c 45); [lia|done]. Qed.

Lemma strptime_complete (s : pystr) (y m d : Z) :
  date_text s y m d -> _check_date_fields y m d = true ->
  strptime s = inr (mkDatetime y m d).
Proof.
  intros (ys & ms & ds & -> & Hy & Hm & Hd) Hc.
  rewrite !lit_dash. unfold strptime, date_regex_match.
  rewrite (match_Y_complete _ _ y Hy). simpl.
  erewrite alts_m_complete; [| done |].
  2: { intros v c r' Hc'. cbv beta iota. by rewrite match_dash_digit. }
  cbv beta iota. simpl.
  destruct (alts_d_complete ds d Hd) as [tl ->]. simpl.
  rewrite Hc. reflexivity.
Qed.

(** ** Rounding of values known to be in range *)

Lemma Qcompare_pos (q : Q) : (0 < q)%Q -> (q ?= 0)%Q = Gt.
Proof.
  intros H. destruct (Qcompare_spec q 0); [lra|lra|done].
Qed.

Lemma fl_pos (a : Q) (z : bool) :
  (0 < a)%Q -> (0 < round_pos a)%Q -> (round_pos a < pow2 1024)%Q ->
  fl a z = Ffin (Qred (round_pos a)).
Proof.
  intros Ha Hr Hb. unfold fl. rewrite Qcompare_pos by done.
  unfold fl_signed. cbv zeta.
  destruct (Qle_bool (pow2 1024) (round_pos a)) eqn:E1.
  { apply Qle_bool_iff in E1. lra. }
  destruct (Qeq_bool (round_pos a) 0) eqn:E2.
  { apply Qeq_bool_iff in E2. lra. }
  reflexivity.
Qed.

Lemma round_pos_eq (x y : Q) : (0 < x)%Q -> (x == y)%Q -> (round_pos x == round_pos y)%Q.
Proof.
  intros Hx Hxy. apply Qle_antisym; apply round_pos_mono; lra.
Qed.

Lemma round_pos_cent_pos : (0 < round_pos (1 # 100))%Q.
Proof. vm_compute. reflexivity. Qed.

Lemma round_pos_one : (round_pos 1 == 1)%Q.
Proof. vm_compute. reflexivity. Qed.

Lemma round_pos_1000 : (round_pos 1000 <= 1000)%Q.
Proof. vm_compute. discriminate. Qed.

Lemma round_pos_1001 : (round_pos 1001 <= 1001)%Q.
Proof. vm_compute. discriminate. Qed.

Lemma round_pos_101 : (101 # 100 <= round_pos (101 # 100))%Q.
Proof. vm_compute. discriminate. Qed.

Lemma round_pos_one_cent : (101 # 100 <= round_pos (1 + round_pos (1 # 100)))%Q.
Proof. vm_compute. discriminate. Qed.

Lemma pow2_1024 : pow2 1024 == inject_Z (2 ^ 1024).
Proof. apply pow2_Z. lia. Qed.

Lemma below_pow2_1024 (x : Q) (n : Z) :
  (x <= inject_Z n)%Q -> n < 2 ^ 1024 -> (x < pow2 1024)%Q.
Proof.
  intros Hx Hn. rewrite pow2_1024. rewrite Zlt_Qlt in Hn. lra.
Qed.

(** ** A price *)

Lemma cents_bounds (c : Z) :
  1 <= c <= 100 ->
  (1 # 100 <= inject_Z c / inject_Z 100)%Q /\ (inject_Z c / inject_Z 100 <= 1)%Q.
Proof.
  intros Hc. unfold Qle, Qdiv, Qmult, Qinv. simpl. lia.
Qed.

Lemma truediv_cents (c : Z) :
  1 <= c <= 100 ->
  py_int_truediv c 100 = inr (Ffin (Qred (round_pos (inject_Z c / inject_Z 100)))) /\
  (0 < round_pos (inject_Z c / inject_Z 100))%Q /\
  (round_pos (inject_Z c / inject_Z 100) <= 1)%Q.
Proof.
  intros Hc. destruct (cents_bounds c Hc) as [Hlo Hhi].
  pose proof round_pos_cent_pos.
  assert (Hl : (round_pos (1 # 100) <= round_pos (inject_Z c / inject_Z 100))%Q)
    by (apply round_pos_mono; [reflexivity|done]).
  assert (Hu : (round_pos (inject_Z c / inject_Z 100) <= 1)%Q).
  { rewrite <- round_pos_one. apply round_pos_mono; lra. }
  split; [|split; lra].
  unfold py_int_truediv. simpl.
  rewrite fl_pos; [reflexivity|lra|lra|].
  apply (below_pow2_1024 _ 1); [change (inject_Z 1) with 1%Q; lra|].
  vm_compute. reflexivity.
Qed.

Lemma of_int_price (i : Z) :
  1 <= i <= 1000 ->
  of_int i = inr (Ffin (Qred (round_pos (inject_Z i)))) /\
  (1 <= round_pos (inject_Z i))%Q /\ (round_pos (inject_Z i) <= 1000)%Q.
Proof.
  intros Hi.
  assert (H1 : (1 <= inject_Z i)%Q) by (change 1%Q with (inject_Z 1); rewrite <- Zle_Qle; lia).
  assert (H2 : (inject_Z i <= 1000)%Q) by (change 1000%Q with (inject_Z 1000); rewrite <- Zle_Qle; lia).
  assert (Hl : (1 <= round_pos (inject_Z i))%Q).
  { rewrite <- round_pos_one at 1. apply round_pos_mono; lra. }
  assert (Hu : (round_pos (inject_Z i) <= 1000)%Q).
  { pose proof round_pos_1000. assert (round_pos (inject_Z i) <= round_pos 1000)%Q
      by (apply round_pos_mono; lra). lra. }
  split; [|done].
  unfold of_int. rewrite fl_pos; [reflexivity|lra|lra|].
  apply (below_pow2_1024 _ 1000); [done|].
  vm_compute. reflexivity.
Qed.

Lemma get_price_eq (s : Stock) (w : World) :
  get_price s w =
  (match py_int_truediv (1 + rng w (S (pos w)) mod 100) 100 with
   | inl e => inl e
   | inr r =>
       match of_int (1 + rng w (pos w) mod 1000) with
       | inl e => inl e
       | inr fi => inr (fadd fi r)
       end
   end, advance w 2).
Proof.
  unfold get_price, _generate_random_price, advance, randint, randbelow, bind,
    of_result, ret. cbn [rng pos out].
  replace (pos w + 2)%nat with (S (S (pos w))) by lia.
  change (100 - 1 + 1) with 100. change (1000 - 1 + 1) with 1000.
  destruct (py_int_truediv (1 + rng w (S (pos w)) mod 100) 100); [reflexivity|].
  destruct (of_int (1 + rng w (pos w) mod 1000)); reflexivity.
Qed.

(** Every price is a finite double between 1.01 and 1001, and takes two
    draws. *)
Lemma price_spec (s : Stock) (w : World) :
  exists q, get_price s w = (inr (Ffin q), advance w 2) /\
    (101 # 100 <= q)%Q /\ (q <= 1001)%Q.
Proof.
  rewrite get_price_eq.
  set (i := 1 + rng w (pos w) mod 1000).
  set (c := 1 + rng w (S (pos w)) mod 100).
  assert (Hi : 1 <= i <= 1000)
    by (subst i; pose proof (Z.mod_pos_bound (rng w (pos w)) 1000); lia).
  assert (Hc : 1 <= c <= 100)
    by (subst c; pose proof (Z.mod_pos_bound (rng w (S (pos w))) 100); lia).
  destruct (truediv_cents c Hc) as (-> & Hc0 & Hc1).
  destruct (of_int_price i Hi) as (-> & Hi0 & Hi1).
  set (ri := round_pos (inject_Z i)) in *.
  set (rc := round_pos (inject_Z c / inject_Z 100)) in *.
  assert (Hrc : (round_pos (1 # 100) <= rc)%Q).
  { subst rc. apply round_pos_mono; [reflexivity|]. apply cents_bounds; done. }
  pose proof round_pos_cent_pos.
  assert (Hsum_lo : (1 + round_pos (1 # 100) <= Qred ri + Qred rc)%Q)
    by (rewrite !Qred_correct; lra).
  assert (Hsum_hi : (Qred ri + Qred rc <= 1001)%Q) by (rewrite !Qred_correct; lra).
  assert (Hlo : (101 # 100 <= round_pos (Qred ri + Qred rc))%Q).
  { pose proof round_pos_one_cent.
    assert (round_pos (1 + round_pos (1 # 100)) <= round_pos (Qred ri + Qred rc))%Q
      by (apply round_pos_mono; lra). lra. }
  assert (Hhi : (round_pos (Qred ri + Qred rc) <= 1001)%Q).
  { pose proof round_pos_1001.
    assert (round_pos (Qred ri + Qred rc) <= round_pos 1001)%Q
      by (apply round_pos_mono; lra). lra. }
  simpl. rewrite fl_pos; [|lra|lra|].
  2: { apply (below_pow2_1024 _ 1001); [done|]. vm_compute. reflexivity. }
  eexists. split; [reflexivity|]. rewrite Qred_correct. lra.
Qed.

(** ** Sums of prices *)

Lemma big_bound (k : nat) :
  (k <= 1000)%nat -> 2002 * (2 ^ Z.of_nat k - 1) < 2 ^ 1024.
Proof.
  intros Hk.
  assert (H1 : 2 ^ Z.of_nat k <= 2 ^ 1000) by (apply Z.pow_le_mono_r; lia).
  assert (H2 : 2 ^ 1024 = 2 ^ 24 * 2 ^ 1000) by (rewrite <- Z.pow_add_r; lia).
  assert (H3 : 0 < 2 ^ Z.of_nat k) by (apply Z.pow_pos_nonneg; lia).
  change (2 ^ 24) with 16777216 in H2. lia.
Qed.

Lemma sum_bound_step (k : nat) :
  2 * (2002 * (2 ^ Z.of_nat k - 1) + 1001) = 2002 * (2 ^ Z.of_nat (S k) - 1).
Proof.
  rewrite Nat2Z.inj_succ, Z.pow_succ_r by lia. lia.
Qed.

Lemma sum_inv_step (k : nat) (acc : float) (q : Q) :
  (S k <= 1000)%nat -> sum_inv k acc -> (101 # 100 <= q)%Q -> (q <= 1001)%Q ->
  sum_inv (S k) (fadd acc (Ffin q)).
Proof.
  intros Hk [[-> ->] | (a & -> & Ha1 & Ha2)] Hq1 Hq2; right.
  - exists q. split; [reflexivity|]. split; [done|].
    change (inject_Z (2002 * (2 ^ Z.of_nat 1 - 1))) with 2002%Q. lra.
  - assert (Hstep := sum_bound_step k).
    assert (Hs : (2 * (a + q) <= inject_Z (2002 * (2 ^ Z.of_nat (S k) - 1)))%Q).
    { rewrite <- Hstep, inject_Z_mult, inject_Z_plus.
      change (inject_Z 2) with 2%Q. change (inject_Z 1001) with 1001%Q. lra. }
    pose proof (round_pos_le_2x (a + q) ltac:(lra)).
    pose proof (round_pos_mono (101 # 100) (a + q) ltac:(lra) ltac:(lra)).
    pose proof round_pos_101.
    simpl. rewrite fl_pos; [|lra|lra|].
    2: { apply (below_pow2_1024 _ (2002 * (2 ^ Z.of_nat (S k) - 1))); [lra|].
         apply big_bound. done. }
    eexists. split; [reflexivity|]. rewrite Qred_correct. lra.
Qed.

Lemma sum_prices_spec (l : list Stock) :
  forall (k : nat) (acc : float) (w : World),
  (k + length l <= 1000)%nat -> sum_inv k acc ->
  exists v, sum_prices acc l w = (inr v, advance w (2 * length l)) /\
    sum_inv (k + length l) v.
Proof.
  induction l as [|s l IH]; intros k acc w Hlen Hinv; simpl.
  - exists acc. split; [unfold advance; destruct w; simpl; do 2 f_equal; lia|].
    by rewrite Nat.add_0_r.
  - destruct (price_spec s w) as (q & Hp & Hq1 & Hq2).
    simpl in Hlen.
    destruct (IH (S k) (fadd acc (Ffin q)) (advance w 2)) as (v & Hv & Hvinv).
    { lia. }
    { apply sum_inv_step; [lia|done..]. }
    exists v. unfold bind at 1. rewrite Hp, Hv. split.
    + unfold advance. simpl. do 2 f_equal. lia.
    + by replace (k + S (length l))%nat with (S k + length l)%nat by lia.
Qed.

(** Any sum of prices runs to its end: no price raises. *)
Lemma sum_prices_total (l : list Stock) :
  forall (acc : float) (w : World),
  exists v, sum_prices acc l w = (inr v, advance w (2 * length l)).
Proof.
  induction l as [|s l IH]; intros acc w; simpl.
  - exists acc. unfold advance; destruct w; simpl; do 2 f_equal; lia.
  - destruct (price_spec s w) as (q & Hp & _).
    destruct (IH (fadd acc (Ffin q)) (advance w 2)) as (v & Hv).
    exists v. unfold bind at 1. rewrite Hp, Hv.
    unfold advance. simpl. do 2 f_equal. lia.
Qed.

Lemma portfolio_value_spec (p : Portfolio) (w : World) :
  stocks p <> [] -> (length (stocks p) <= 1000)%nat ->
  exists q, _get_portfolio_value p w = (inr (Ffin q), advance w (2 * length (stocks p))) /\
    (101 # 100 <= q)%Q.
Proof.
  intros Hne Hlen.
  destruct (sum_prices_spec (stocks p) 0 (Fzero false) w) as (v & Hv & Hinv).
  { lia. }
  { left. done. }
  destruct Hinv as [[Hk _] | (a & -> & Ha & _)].
  { destruct (stocks p); [done|simpl in Hk; lia]. }
  exists a. done.
Qed.

(** ** [random.sample]: the pool invariant *)

(** One round of the pool loop: taking [pool[j]] out of the first [m]
    entries and moving [pool[m-1]] into its slot keeps the multiset of the
    first [m] entries. *)
Lemma insert_perm (T : list pystr) (j : nat) (x y : pystr) :
  T !! j = Some x -> x :: <[j := y]> T ≡ₚ T ++ [y].
Proof.
  intros Hj.
  assert (j < length T)%nat by (apply lookup_lt_Some with x; done).
  rewrite insert_take_drop by done.
  transitivity ((take j T ++ x :: drop (S j) T) ++ [y]).
  - solve_Permutation.
  - by rewrite take_drop_middle.
Qed.

Lemma pool_step (pool : list pystr) (m j : nat) (x y : pystr) :
  (j < m)%nat -> (m <= length pool)%nat ->
  pool !! j = Some x -> pool !! (m - 1)%nat = Some y ->
  x :: take (m - 1) (<[j := y]> pool) ≡ₚ take m pool.
Proof.
  intros Hjm Hm Hx Hy.
  replace (take m pool) with (take (S (m - 1)) pool) by (f_equal; lia).
  rewrite (take_S_r _ _ y) by done.
  destruct (decide (j = (m - 1)%nat)) as [->|Hne].
  - rewrite list_insert_id by done.
    assert (x = y) as -> by congruence.
    apply Permutation_cons_append.
  - rewrite take_insert_lt by lia.
    apply insert_perm.
    rewrite lookup_take_lt by lia. done.
Qed.

Lemma py_index_in_range {A} (l : list A) (i : Z) :
  0 <= i < Z.of_nat (length l) -> py_index l i = Some (Z.to_nat i).
Proof.
  intros H. unfold py_index.
  destruct (Z.ltb_spec i 0); [lia|].
  destruct (Z.leb_spec 0 i); [|lia].
  destruct (Z.ltb_spec i (Z.of_nat (length l))); [|lia]. done.
Qed.

Lemma py_getitem_in_range {A} (l : list A) (i : Z) (w : World) :
  0 <= i < Z.of_nat (length l) ->
  exists x, l !! Z.to_nat i = Some x /\ py_getitem l i w = (inr x, w).
Proof.
  intros H. unfold py_getitem. rewrite py_index_in_range by done.
  destruct (l !! Z.to_nat i) as [x|] eqn:E.
  - by exists x.
  - apply lookup_ge_None in E. lia.
Qed.

Lemma sample_loop_spec (population : list pystr) (todo : nat) :
  forall (i : nat) (pool result : list pystr) (w : World),
  length pool = length population ->
  (i + todo <= length population)%nat ->
  result ++ take (length population - i) pool ≡ₚ population ->
  exists res w',
    sample_loop (Z.of_nat (length population)) i todo pool result w = (inr res, w') /\
    length res = (length result + todo)%nat /\
    exists rest, res ++ rest ≡ₚ population.
Proof.
  induction todo as [|todo IH]; intros i pool result w Hlen Hi Hperm; simpl.
  - exists result, w. split; [done|]. split; [lia|]. eauto.
  - set (N := length population) in *.
    set (j := rng w (pos w) mod (Z.of_nat N - Z.of_nat i)).
    assert (Hj : 0 <= j < Z.of_nat N - Z.of_nat i) by (apply Z.mod_pos_bound; lia).
    set (w1 := mkWorld (rng w) (S (pos w)) (out w)).
    destruct (py_getitem_in_range pool j w1) as [x [Hx Ex]]; [lia|].
    destruct (py_getitem_in_range pool (Z.of_nat N - Z.of_nat i - 1) w1) as [y [Hy Ey]]; [lia|].
    unfold bind at 1. unfold randbelow. fold j. fold w1.
    unfold bind at 1. rewrite Ex.
    unfold bind at 1. rewrite Ey.
    unfold bind at 1. unfold py_setitem. rewrite py_index_in_range by lia.
    unfold ret.
    edestruct (IH (S i) (<[Z.to_nat j := y]> pool) (result ++ [x]) w1)
      as (res & w' & Hrun & Hlres & Hrest).
    + by rewrite length_insert.
    + lia.
    + rewrite <- app_assoc. simpl.
      replace (N - S i)%nat with ((N - i) - 1)%nat by lia.
      rewrite pool_step; [done|lia|lia|done|].
      replace ((N - i) - 1)%nat with (Z.to_nat (Z.of_nat N - Z.of_nat i - 1)) by lia.
      done.
    + exists res, w'. split; [done|]. split; [rewrite Hlres, length_app; simpl; lia|done].
Qed.

Lemma sample_spec (population : list pystr) (k : Z) (w : World) :
  0 <= k <= Z.of_nat (length population) ->
  exists res w',
    sample population k w = (inr res, w') /\
    Z.of_nat (length res) = k /\
    exists rest, res ++ rest ≡ₚ population.
Proof.
  intros Hk. unfold sample.
  destruct (Z.leb_spec 0 k); [|lia].
  destruct (Z.leb_spec k (Z.of_nat (length population))); [|lia]. simpl.
  destruct (sample_loop_spec population (Z.to_nat k) 0 population [] w)
    as (res & w' & Hrun & Hl & Hrest); [done|lia|by rewrite Nat.sub_0_r, take_ge|].
  exists res, w'. split; [done|]. split; [simpl in Hl; lia|done].
Qed.

(** ** [randint] *)

Lemma randint_eq (a b : Z) (w : World) :
  randint a b w =
  (inr (a + rng w (pos w) mod (b - a + 1)), mkWorld (rng w) (S (pos w)) (out w)).
Proof. reflexivity. Qed.

Lemma randint_range (a b : Z) (w : World) :
  a <= b -> a <= a + rng w (pos w) mod (b - a + 1) <= b.
Proof.
  intros H. pose proof (Z.mod_pos_bound (rng w (pos w)) (b - a + 1)). lia.
Qed.

(** ** Portfolio construction *)

Lemma CUSTOM_RANDOM_STOCKS_NoDup : NoDup CUSTOM_RANDOM_STOCKS.
Proof. unfold CUSTOM_RANDOM_STOCKS. apply NoDup_ListNoDup. vm_compute. repeat constructor; simpl; intuition discriminate. Qed.

Lemma Portfolio_init_spec (w : World) :
  exists p w', Portfolio_init w = (inr p, w') /\
    (1 <= length (stocks p) <= 8)%nat /\
    Forall (fun s => name s ∈ CUSTOM_RANDOM_STOCKS) (stocks p) /\
    NoDup (map name (stocks p)).
Proof.
  set (k := 1 + rng w (pos w) mod (8 - 1 + 1)).
  assert (Hk : 1 <= k <= 8) by (apply (randint_range 1 8 w); lia).
  set (w1 := mkWorld (rng w) (S (pos w)) (out w)).
  destruct (sample_spec CUSTOM_RANDOM_STOCKS k w1) as (res & w' & Hrun & Hlen & rest & Hperm);
    [simpl; lia|].
  exists (mkPortfolio (map mkStock res)), w'.
  split.
  { unfold Portfolio_init, _generate_random_stocks.
    unfold bind at 1. unfold bind at 1. rewrite randint_eq.
    replace (Z.of_nat (length CUSTOM_RANDOM_STOCKS)) with 8 by reflexivity.
    fold k. fold w1. unfold bind at 1. rewrite Hrun. reflexivity. }
  simpl. rewrite length_map. split; [lia|].
  assert (Hnd : NoDup (res ++ rest)).
  { rewrite Hperm. apply CUSTOM_RANDOM_STOCKS_NoDup. }
  split.
  - apply Forall_forall. intros s Hs. apply list_elem_of_In, in_map_iff in Hs as (nm & <- & Hin).
    simpl. rewrite <- Hperm. apply elem_of_app. left. by apply list_elem_of_In.
  - rewrite map_map. simpl. rewrite map_id.
    by apply NoDup_app in Hnd as [? _].
Qed.

Lemma Portfolio_init_nonempty (w0 w0' : World) (p : Portfolio) :
  Portfolio_init w0 = (inr p, w0') -> stocks p <> [].
Proof.
  intros H. destruct (Portfolio_init_spec w0) as (p' & w'' & H' & Hlen & _).
  rewrite H in H'. injection H' as -> ->.
  intros E. rewrite E in Hlen. simpl in Hlen. lia.
Qed.


Lemma Portfolio_init_size (w : World) :
  exists p w', Portfolio_init w = (inr p, w') /\
    Z.of_nat (length (stocks p)) = 1 + rng w (pos w) mod 8.
Proof.
  set (k := 1 + rng w (pos w) mod (8 - 1 + 1)).
  assert (Hk : 1 <= k <= 8) by (apply (randint_range 1 8 w); lia).
  set (w1 := mkWorld (rng w) (S (pos w)) (out w)).
  destruct (sample_spec CUSTOM_RANDOM_STOCKS k w1) as (res & w' & Hrun & Hlen & _);
    [simpl; lia|].
  exists (mkPortfolio (map mkStock res)), w'. split.
  - unfold Portfolio_init, _generate_random_stocks.
    unfold bind at 1. unfold bind at 1. rewrite randint_eq.
    replace (Z.of_nat (length CUSTOM_RANDOM_STOCKS)) with 8 by reflexivity.
    fold k. fold w1. unfold bind at 1. rewrite Hrun. reflexivity.
  - simpl. rewrite length_map, Hlen. done.
Qed.

(** ** Calendar *)

Lemma check_date_fields_spec (y m d : Z) :
  _check_date_fields y m d = true ->
  1 <= y <= 9999 /\ 1 <= m <= 12 /\ 1 <= d <= _days_in_month y m.
Proof.
  unfold _check_date_fields. intros H.
  repeat match goal with H : (_ && _)%bool = true |- _ => apply andb_true_iff in H as [? ?] end.
  repeat match goal with H : (_ <=? _) = true |- _ => apply Z.leb_le in H end.
  lia.
Qed.

Lemma days_in_month_le_31 (y m : Z) : 1 <= m <= 12 -> _days_in_month y m <= 31.
Proof.
  intros Hm. unfold _days_in_month.
  destruct ((m =? 2) && _is_leap y); [lia|].
  assert (m = 1 \/ m = 2 \/ m = 3 \/ m = 4 \/ m = 5 \/ m = 6 \/ m = 7 \/ m = 8 \/
          m = 9 \/ m = 10 \/ m = 11 \/ m = 12) as Hc by lia.
  repeat destruct Hc as [->|Hc]; try subst m; vm_compute; congruence.
Qed.

Lemma ymd2ord_year_step (y : Z) :
  _ymd2ord (y + 1) 1 1 - _ymd2ord y 1 1 = if _is_leap y then 366 else 365.
Proof.
  unfold _ymd2ord, _days_before_month, _days_before_year, _is_leap. simpl.
  replace (y + 1 - 1) with y by lia.
  destruct (Z.eqb_spec (y mod 4) 0), (Z.eqb_spec (y mod 100) 0),
    (Z.eqb_spec (y mod 400) 0); simpl; Z.div_mod_to_equations; lia.
Qed.

Lemma days_before_year_mono (y y' : Z) :
  y <= y' -> _days_before_year y + 365 * (y' - y) <= _days_before_year y'.
Proof.
  intros H. unfold _days_before_year. Z.div_mod_to_equations. lia.
Qed.

Lemma month_cases (m : Z) :
  1 <= m <= 12 ->
  m = 1 \/ m = 2 \/ m = 3 \/ m = 4 \/ m = 5 \/ m = 6 \/ m = 7 \/ m = 8 \/
  m = 9 \/ m = 10 \/ m = 11 \/ m = 12.
Proof. lia. Qed.

Lemma month_step (y m : Z) :
  1 <= m <= 12 ->
  _days_before_month y m + _days_in_month y m =
  if m =? 12 then 365 + (if _is_leap y then 1 else 0) else _days_before_month y (m + 1).
Proof.
  intros Hm. unfold _days_before_month, _days_in_month.
  destruct (_is_leap y);
    destruct (month_cases m Hm) as [->|[->|[->|[->|[->|[->|[->|[->|[->|[->|[->| ->]]]]]]]]]]];
    reflexivity.
Qed.

Lemma month_mono (y m m' : Z) :
  1 <= m -> m < m' -> m' <= 12 ->
  _days_before_month y m + _days_in_month y m <= _days_before_month y m'.
Proof.
  intros H1 H2 H3. unfold _days_before_month, _days_in_month.
  destruct (_is_leap y);
    destruct (month_cases m) as [->|[->|[->|[->|[->|[->|[->|[->|[->|[->|[->| ->]]]]]]]]]]];
    try lia;
    destruct (month_cases m') as [->|[->|[->|[->|[->|[->|[->|[->|[->|[->|[->| ->]]]]]]]]]]];
    try lia; vm_compute; congruence.
Qed.

Lemma month_end_le_year (y m : Z) :
  1 <= m <= 12 ->
  _days_before_month y m + _days_in_month y m <= 365 + (if _is_leap y then 1 else 0).
Proof.
  intros Hm. destruct (Z.eq_dec m 12) as [->|Hne].
  - rewrite (month_step y 12) by lia. simpl. lia.
  - pose proof (month_mono y m 12 ltac:(lia) ltac:(lia) ltac:(lia)).
    pose proof (month_step y 12 ltac:(lia)). simpl in *.
    assert (_days_in_month y 12 = 31) by reflexivity. lia.
Qed.

Lemma days_before_year_succ (y : Z) :
  _days_before_year (y + 1) = _days_before_year y + 365 + (if _is_leap y then 1 else 0).
Proof.
  pose proof (ymd2ord_year_step y) as H. unfold _ymd2ord in H.
  assert (_days_before_month (y + 1) 1 = 0) by reflexivity.
  assert (_days_before_month y 1 = 0) by reflexivity.
  destruct (_is_leap y); lia.
Qed.

Lemma days_before_month_nonneg (y m : Z) : 1 <= m <= 12 -> 0 <= _days_before_month y m.
Proof.
  intros Hm. destruct (Z.eq_dec m 1) as [->|Hne]; [reflexivity|].
  pose proof (month_mono y 1 m ltac:(lia) ltac:(lia) ltac:(lia)).
  assert (_days_before_month y 1 = 0) by reflexivity.
  assert (_days_in_month y 1 = 31) by reflexivity. lia.
Qed.

Lemma ymd2ord_bounds (y m d : Z) :
  1 <= m <= 12 -> 1 <= d <= _days_in_month y m ->
  _days_before_year y < _ymd2ord y m d <= _days_before_year (y + 1).
Proof.
  intros Hm Hd. unfold _ymd2ord.
  pose proof (days_before_month_nonneg y m Hm).
  pose proof (month_end_le_year y m Hm).
  rewrite days_before_year_succ. lia.
Qed.

Lemma ymd2ord_inj (y m d y' m' d' : Z) :
  _check_date_fields y m d = true -> _check_date_fields y' m' d' = true ->
  _ymd2ord y m d = _ymd2ord y' m' d' -> y = y' /\ m = m' /\ d = d'.
Proof.
  intros Hc Hc' Heq.
  apply check_date_fields_spec in Hc as (Hy & Hm & Hd).
  apply check_date_fields_spec in Hc' as (Hy' & Hm' & Hd').
  pose proof (ymd2ord_bounds y m d Hm Hd).
  pose proof (ymd2ord_bounds y' m' d' Hm' Hd').
  assert (y = y') as <-.
  { destruct (Z.lt_trichotomy y y') as [Hlt|[Heq'|Hlt]]; [|done|].
    - pose proof (days_before_year_mono (y + 1) y' ltac:(lia)). lia.
    - pose proof (days_before_year_mono (y' + 1) y ltac:(lia)). lia. }
  unfold _ymd2ord in Heq.
  assert (m = m') as <-.
  { destruct (Z.lt_trichotomy m m') as [Hlt|[Heq'|Hlt]]; [|done|].
    - pose proof (month_mono y m m' ltac:(lia) Hlt ltac:(lia)). lia.
    - pose proof (month_mono y m' m ltac:(lia) Hlt ltac:(lia)). lia. }
  split; [done|]. split; [done|]. lia.
Qed.

Lemma days_in_month_ge_28 (y m : Z) : 1 <= m <= 12 -> 28 <= _days_in_month y m.
Proof.
  intros Hm. unfold _days_in_month.
  destruct (_is_leap y);
    destruct (month_cases m Hm) as [->|[->|[->|[->|[->|[->|[->|[->|[->|[->|[->| ->]]]]]]]]]]];
    vm_compute; congruence.
Qed.

Lemma days_difference_zero_iff (a b : datetime) :
  _check_date_fields (year a) (month a) (day a) = true ->
  _check_date_fields (year b) (month b) (day b) = true ->
  _calculate_days_difference a b = 0 <-> a = b.
Proof.
  intros Ha Hb. unfold _calculate_days_difference, timedelta_days, toordinal. split.
  - intros H0. destruct (ymd2ord_inj _ _ _ _ _ _ Ha Hb ltac:(lia)) as (Hy & Hm & Hd).
    destruct a, b. simpl in *. by subst.
  - intros ->. lia.
Qed.

(** ** Monad steps *)

Lemma bind_inr {A B} (m : M A) (k : A -> M B) (w w' : World) (a : A) :
  m w = (inr a, w') -> bind m k w = k a w'.
Proof. intros H. unfold bind. by rewrite H. Qed.

Lemma bind_inl {A B} (m : M A) (k : A -> M B) (w w' : World) (e : exn) :
  m w = (inl e, w') -> bind m k w = (inl e, w').
Proof. intros H. unfold bind. by rewrite H. Qed.

Lemma advance_advance (w : World) (a b : nat) :
  advance (advance w a) b = advance w (a + b).
Proof. unfold advance. simpl. f_equal. lia. Qed.

(** ** [_validate_date_format] *)

Lemma validate_eq (s : pystr) (w : World) :
  _validate_date_format s w =
  match strptime s with
  | inr dt => (inr dt, w)
  | inl _ => (inl (mk_InvalidDateFormat s), w)
  end.
Proof.
  unfold _validate_date_format, except_ValueError, of_result, raise.
  unfold strptime.
  destruct (date_regex_match s) as [[[[y m] d] rest]|]; [|done].
  destruct rest; [|done].
  destruct (_check_date_fields y m d); done.
Qed.

Lemma validate_ok (s : pystr) (dt : datetime) (w : World) :
  strptime s = inr dt -> _validate_date_format s w = (inr dt, w).
Proof. intros H. by rewrite validate_eq, H. Qed.

Lemma validate_err (s : pystr) (err : exn) (w : World) :
  strptime s = inl err -> _validate_date_format s w = (inl (mk_InvalidDateFormat s), w).
Proof. intros H. by rewrite validate_eq, H. Qed.

Lemma mk_InvalidDateFormat_msg (s : pystr) :
  mk_InvalidDateFormat s =
  InvalidDateFormat (s ++ lit " is not a valid date. Invalid date format. Please use the format yyyy-mm-dd.").
Proof. reflexivity. Qed.

(** ** Valuations *)

Lemma Portfolio_init_len (w0 w0' : World) (p : Portfolio) :
  Portfolio_init w0 = (inr p, w0') -> stocks p <> [] /\ (length (stocks p) <= 8)%nat.
Proof.
  intros H. destruct (Portfolio_init_spec w0) as (p' & w'' & H' & Hlen & _).
  rewrite H in H'. injection H' as -> ->.
  split; [|lia]. intros E. rewrite E in Hlen. simpl in Hlen. lia.
Qed.

(** The two valuations of a reporting operation. *)
Lemma two_valuations (w0 w0' w : World) (p : Portfolio) :
  Portfolio_init w0 = (inr p, w0') ->
  exists q1 q2,
    _get_portfolio_value p w = (inr (Ffin q1), advance w (2 * length (stocks p))) /\
    _get_portfolio_value p (advance w (2 * length (stocks p))) =
      (inr (Ffin q2), advance w (4 * length (stocks p))) /\
    (101 # 100 <= q1)%Q /\ (101 # 100 <= q2)%Q.
Proof.
  intros Hinit. destruct (Portfolio_init_len _ _ _ Hinit) as [Hne Hlen].
  destruct (portfolio_value_spec p w Hne ltac:(lia)) as (q1 & H1 & Hq1).
  destruct (portfolio_value_spec p (advance w (2 * length (stocks p))) Hne ltac:(lia))
    as (q2 & H2 & Hq2).
  rewrite advance_advance in H2.
  replace (2 * length (stocks p) + 2 * length (stocks p))%nat
    with (4 * length (stocks p))%nat in H2 by lia.
  exists q1, q2. done.
Qed.

Lemma profit_percentage_fin (a : Q) (v : float) (w : World) :
  _calculate_profit_percentage (Ffin a) v w =
  (inr (fmul (fdiv (fsub v (Ffin a)) (Ffin a)) f100), w).
Proof. reflexivity. Qed.

Lemma profit_percentage_unfold (v1 v2 : float) (w : World) :
  _calculate_profit_percentage v1 v2 w =
  match py_fdiv (fsub v2 v1) v1 with
  | inl err => (inl err, w)
  | inr q => (inr (fmul q f100), w)
  end.
Proof. unfold _calculate_profit_percentage, bind, of_result, ret. by destruct (py_fdiv _ _). Qed.

(** ** Years *)

Lemma days_before_year_1 : _days_before_year 1 = 0.
Proof. reflexivity. Qed.

Lemma days_before_year_10000 : _days_before_year 10000 = 3652059.
Proof. reflexivity. Qed.

Lemma ordinal_bounds (dt : datetime) :
  _check_date_fields (year dt) (month dt) (day dt) = true ->
  1 <= toordinal dt <= 3652059.
Proof.
  intros Hc. apply check_date_fields_spec in Hc as (Hy & Hm & Hd).
  unfold toordinal.
  pose proof (ymd2ord_bounds (year dt) (month dt) (day dt) Hm Hd) as Hb.
  pose proof (days_before_year_mono 1 (year dt) ltac:(lia)).
  pose proof (days_before_year_mono (year dt + 1) 10000 ltac:(lia)).
  rewrite days_before_year_1 in *. rewrite days_before_year_10000 in *. lia.
Qed.

Lemma days_difference_le (a b : datetime) :
  _check_date_fields (year a) (month a) (day a) = true ->
  _check_date_fields (year b) (month b) (day b) = true ->
  0 <= _calculate_days_difference a b <= 3652058.
Proof.
  intros Ha Hb. apply ordinal_bounds in Ha, Hb.
  unfold _calculate_days_difference, timedelta_days. lia.
Qed.

Lemma round_pos_day_pos : (0 < round_pos (1 # 365))%Q.
Proof. vm_compute. reflexivity. Qed.

(** The years between two checked dates: the double nearest to
    [days / 365], [+0.0] when [days = 0] and positive otherwise. *)
Lemma years_spec (a b : datetime) (w : World) :
  _check_date_fields (year a) (month a) (day a) = true ->
  _check_date_fields (year b) (month b) (day b) = true ->
  _calculate_years_difference a b w =
    (inr (fl (inject_Z (_calculate_days_difference a b) / inject_Z 365) false), w) /\
  (_calculate_days_difference a b = 0 ->
   fl (inject_Z (_calculate_days_difference a b) / inject_Z 365) false = Fzero false) /\
  (_calculate_days_difference a b <> 0 ->
   exists yq, fl (inject_Z (_calculate_days_difference a b) / inject_Z 365) false = Ffin yq /\
     (0 < yq)%Q).
Proof.
  intros Ha Hb. pose proof (days_difference_le a b Ha Hb) as Hd.
  set (n := _calculate_days_difference a b) in *.
  assert (Hz : n = 0 -> fl (inject_Z n / inject_Z 365) false = Fzero false)
    by (intros ->; reflexivity).
  assert (Hp : n <> 0 ->
    fl (inject_Z n / inject_Z 365) false = Ffin (Qred (round_pos (inject_Z n / inject_Z 365))) /\
    (0 < round_pos (inject_Z n / inject_Z 365))%Q).
  { intros Hn.
    assert (Hq : (1 # 365 <= inject_Z n / inject_Z 365)%Q)
      by (unfold Qle, Qdiv, Qmult, Qinv; simpl; lia).
    assert (Hq' : (inject_Z n / inject_Z 365 <= inject_Z 3652058 / inject_Z 365)%Q)
      by (unfold Qle, Qdiv, Qmult, Qinv; simpl; lia).
    pose proof round_pos_day_pos.
    pose proof (round_pos_mono (1 # 365) (inject_Z n / inject_Z 365) ltac:(reflexivity) Hq).
    pose proof (round_pos_le_2x (inject_Z n / inject_Z 365) ltac:(lra)).
    split; [|lra].
    apply fl_pos; [lra|lra|].
    apply (below_pow2_1024 _ 20012).
    - assert (Hc : (2 * (inject_Z 3652058 / inject_Z 365) <= inject_Z 20012)%Q)
        by (vm_compute; discriminate). lra.
    - vm_compute. reflexivity. }
  split; [|split; [done|]].
  - unfold _calculate_years_difference, of_result, py_int_truediv. fold n.
    change (365 =? 0) with false. change (365 <? 0) with false.
    replace (n <? 0) with false by (symmetry; apply Z.ltb_ge; lia).
    change (xorb false false) with false.
    change (if false then ?a else ?b) with b.
    destruct (Z.eq_dec n 0) as [E|E].
    + by rewrite (Hz E).
    + by rewrite (proj1 (Hp E)).
  - intros Hn. destruct (Hp Hn) as [-> Hpos].
    eexists. split; [reflexivity|]. by rewrite Qred_correct.
Qed.

(** ** The run of [calculate_profit_annualized] on two valid date strings *)

Lemma annualized_run (py_pow : float -> float -> exn + float) (w0 w0' w : World)
    (p : Portfolio) (s e : pystr) (ds de : datetime) :
  Portfolio_init w0 = (inr p, w0') -> strptime s = inr ds -> strptime e = inr de ->
  exists q1 q2,
    _get_portfolio_value p w = (inr (Ffin q1), advance w (2 * length (stocks p))) /\
    _get_portfolio_value p (advance w (2 * length (stocks p))) =
      (inr (Ffin q2), advance w (4 * length (stocks p))) /\
    _calculate_years_difference ds de (advance w (4 * length (stocks p))) =
      (inr (fl (inject_Z (_calculate_days_difference ds de) / inject_Z 365) false),
       advance w (4 * length (stocks p))) /\
    calculate_profit_annualized py_pow p s e w =
    match py_fdiv f1 (fl (inject_Z (_calculate_days_difference ds de) / inject_Z 365) false) with
    | inl err => (inl err, advance w (4 * length (stocks p)))
    | inr ey =>
        match py_pow (fdiv (Ffin q2) (Ffin q1)) ey with
        | inl err => (inl err, advance w (4 * length (stocks p)))
        | inr z =>
            (inr tt, mkWorld (rng w) (pos w + 4 * length (stocks p))
               (out w ++ [lit "Profit since " ++ s ++ lit ": "
                          ++ fmt_2f (fmul (fdiv (fsub (Ffin q2) (Ffin q1)) (Ffin q1)) f100)
                          ++ lit "%";
                          lit "Annualized profit: " ++ fmt_2f (fmul (fsub z f1) f100)
                          ++ lit "%"]))
        end
    end.
Proof.
  intros Hinit Hs He.
  destruct (two_valuations w0 w0' w p Hinit) as (q1 & q2 & H1 & H2 & Hq1 & Hq2).
  pose proof (proj2 (strptime_sound s ds Hs)) as Hcs.
  pose proof (proj2 (strptime_sound e de He)) as Hce.
  destruct (years_spec ds de (advance w (4 * length (stocks p))) Hcs Hce) as (Hy & _ & _).
  exists q1, q2. split; [done|]. split; [done|]. split; [done|].
  unfold calculate_profit_annualized.
  rewrite (bind_inr _ _ _ _ _ (validate_ok s ds w Hs)).
  rewrite (bind_inr _ _ _ _ _ (validate_ok e de w He)).
  rewrite (bind_inr _ _ _ _ _ H1).
  rewrite (bind_inr _ _ _ _ _ H2).
  rewrite (bind_inr _ _ _ _ _ Hy).
  rewrite (bind_inr _ _ _ _ _ (profit_percentage_fin q1 (Ffin q2) _)).
  unfold _calculate_annualized_return at 1.
  unfold bind at 1. unfold bind at 1. unfold of_result at 1. simpl py_fdiv at 1.
  destruct (py_fdiv f1 _) as [err|ey]; [done|].
  unfold bind at 1. unfold of_result at 1.
  destruct (py_pow _ ey) as [err|z]; [done|].
  unfold bind, of_result, ret, print, advance. simpl. by rewrite <- app_assoc.
Qed.

Lemma str_length_app (s t : pystr) : length (s ++ t) = (length s + length t)%nat.
Proof. apply length_app. Qed.

Lemma date_text_length (s : pystr) (y m d : Z) :
  date_text s y m d -> (8 <= length s <= 10)%nat.
Proof.
  intros (ys & ms & ds & -> & [Hyl _] & [Hml _] & Hd).
  rewrite !length_app. simpl.
  destruct Hd as [[Hdl _]|[(a & b & -> & _)|(c & -> & _)]]; simpl; lia.
Qed.

(** * The claims *)

(** C1 (code_bug): [_generate_random_price] is documented to return a
    price between 1.01 and 1000.99, but when [randint(1, 1000)] gives 1000
    and [randint(1, 100)] gives 100 it returns [1000 + 100/100 = 1001.0],
    above 1000.99. *)
Theorem C1_price_reaches_1001 :
  exists q, get_price (mkStock (lit "MSFT")) w_max_price =
            (inr (Ffin q), advance w_max_price 2) /\
    (q == 1001 # 1)%Q /\ (100099 # 100 < q)%Q.
Proof.
  exists (1001 # 1). split; [vm_compute; reflexivity|].
  split; [reflexivity|vm_compute; reflexivity].
Qed.

(** C2 (counterexample): the non-zero-padded string ["2022-1-1"] is not
    rejected: [_validate_date_format] returns the date 2022-01-01. *)
Lemma C2_unpadded_date_accepted :
  _validate_date_format (lit "2022-1-1") w_zero = (inr (mkDatetime 2022 1 1), w_zero).
Proof. vm_compute. reflexivity. Qed.

(** C2 (amended): [_validate_date_format] accepts exactly the strings of
    [date_text] (four decimal digits of any script, [-], a month 1-12 in one
    or two ASCII digits, [-], and a day in one or two ASCII digits, as [1] or
    [2] and a decimal digit of any script, or as a space and an ASCII digit
    1-9, and nothing after) whose date passes the calendar check, and
    returns that date.  Every other string makes it raise InvalidDateFormat
    with the message "<s> is not a valid date. Invalid date format. Please
    use the format yyyy-mm-dd.".  The world is untouched either way. *)
Theorem C2_validate_accepts_exactly (s : pystr) (w : World) :
  (exists y m d, date_text s y m d /\ _check_date_fields y m d = true /\
     _validate_date_format s w = (inr (mkDatetime y m d), w)) \/
  (~ (exists y m d, date_text s y m d /\ _check_date_fields y m d = true) /\
   _validate_date_format s w =
   (inl (InvalidDateFormat (s ++ lit " is not a valid date. Invalid date format. Please use the format yyyy-mm-dd.")), w)).
Proof.
  rewrite validate_eq. destruct (strptime s) as [err|dt] eqn:E.
  - right. split; [|reflexivity].
    intros (y & m & d & Ht & Hc).
    rewrite (strptime_complete s y m d Ht Hc) in E. discriminate.
  - left. apply strptime_sound in E as [Ht Hc].
    exists (year dt), (month dt), (day dt). split; [done|]. split; [done|].
    by destruct dt.
Qed.

(** C3: a string made of a four-digit year, [-], a two-digit month and
    [-], a two-digit day, whose date passes the calendar check, is accepted,
    and the date has the year, month and day written in it. *)
Theorem C3_valid_dates_parse (ys ms ds : pystr) (y m d : Z) (w : World) :
  year_text ys y ->
  length ms = 2%nat -> ascii_digits ms -> digits_value ms 0 = Some m ->
  length ds = 2%nat -> ascii_digits ds -> digits_value ds 0 = Some d ->
  _check_date_fields y m d = true ->
  _validate_date_format (ys ++ lit "-" ++ ms ++ lit "-" ++ ds) w = (inr (mkDatetime y m d), w).
Proof.
  intros Hy Hml Hma Hmv Hdl Hda Hdv Hc.
  rewrite validate_eq.
  pose proof (check_date_fields_spec y m d Hc) as (Hyr & Hmr & Hdr).
  pose proof (days_in_month_le_31 y m Hmr).
  rewrite (strptime_complete _ y m d); [done| |done].
  exists ys, ms, ds. split; [done|]. split; [done|]. split.
  - split; [lia|]. split; [done|]. split; [done|lia].
  - left. split; [lia|]. split; [done|]. split; [done|lia].
Qed.

Lemma C3_valid_dates_parse_witness :
  _validate_date_format (lit "2024" ++ lit "-" ++ lit "02" ++ lit "-" ++ lit "29") w_zero =
  (inr (mkDatetime 2024 2 29), w_zero).
Proof.
  apply C3_valid_dates_parse.
  - split; reflexivity.
  - reflexivity.
  - change (ascii_digits [48; 50]). apply ascii_digits_2. lia.
  - reflexivity.
  - reflexivity.
  - change (ascii_digits [50; 57]). apply ascii_digits_2. lia.
  - reflexivity.
  - reflexivity.
Defined.

(** C8: a constructed portfolio holds between 1 and 8 stocks, every ticker
    is one of [CUSTOM_RANDOM_STOCKS] and no ticker repeats.  Construction
    never fails.  The stock list is fixed afterwards: no method assigns
    [self.stocks], and in this model the methods receive [self] read-only
    and return no portfolio. *)
Theorem C8_portfolio_stocks (w : World) :
  exists p w', Portfolio_init w = (inr p, w') /\
    (1 <= length (stocks p) <= 8)%nat /\
    Forall (fun s => name s ∈ CUSTOM_RANDOM_STOCKS) (stocks p) /\
    NoDup (map name (stocks p)).
Proof. apply Portfolio_init_spec. Qed.

(** C9: the day difference is symmetric and non-negative; hence the year
    difference is symmetric. *)
Theorem C9_days_difference_symmetric (a b : datetime) (w : World) :
  _calculate_days_difference a b = _calculate_days_difference b a /\
  0 <= _calculate_days_difference a b /\
  _calculate_years_difference a b w = _calculate_years_difference b a w.
Proof.
  assert (Hsym : _calculate_days_difference a b = _calculate_days_difference b a).
  { unfold _calculate_days_difference, timedelta_days. lia. }
  split; [done|]. split.
  - unfold _calculate_days_difference. lia.
  - unfold _calculate_years_difference. by rewrite Hsym.
Qed.

(** C10: the value of a constructed portfolio is a finite double of at
    least 1.01, so it is positive and dividing by it never raises
    ZeroDivisionError. *)
Theorem C10_portfolio_value_positive (w0 w0' w : World) (p : Portfolio) :
  Portfolio_init w0 = (inr p, w0') ->
  exists q, _get_portfolio_value p w = (inr (Ffin q), advance w (2 * length (stocks p))) /\
    (101 # 100 <= q)%Q /\ (0 < q)%Q /\ forall x, py_fdiv x (Ffin q) = inr (fdiv x (Ffin q)).
Proof.
  intros Hinit. destruct (Portfolio_init_len _ _ _ Hinit) as [Hne Hlen].
  destruct (portfolio_value_spec p w Hne ltac:(lia)) as (q & Hv & Hlo).
  exists q. split; [done|]. split; [done|]. split; [lra|].
  intros x. reflexivity.
Qed.

Lemma C10_portfolio_value_positive_witness :
  Portfolio_init w_zero = (inr p_msft, mkWorld (fun _ => 0) 2 []) /\
  exists q, _get_portfolio_value p_msft w_zero =
            (inr (Ffin q), advance w_zero (2 * length (stocks p_msft))) /\
    (101 # 100 <= q)%Q /\ (0 < q)%Q /\ forall x, py_fdiv x (Ffin q) = inr (fdiv x (Ffin q)).
Proof.
  assert (H : Portfolio_init w_zero = (inr p_msft, mkWorld (fun _ => 0) 2 [])).
  { vm_compute. reflexivity. }
  split; [exact H|]. exact (C10_portfolio_value_positive _ _ w_zero _ H).
Defined.

(** C4: when the start or the end date string is rejected by [strptime],
    both reporting operations raise InvalidDateFormat for the first
    rejected string and leave the world as it was: no draw is consumed (no
    valuation is computed) and no line is printed. *)
Theorem C4_invalid_date_aborts (py_pow : float -> float -> exn + float) (p : Portfolio)
    (s e : pystr) (w : World) :
  (exists err, strptime s = inl err) \/ (exists err, strptime e = inl err) ->
  calculate_profit_between p s e w =
    (inl (mk_InvalidDateFormat (match strptime s with inl _ => s | inr _ => e end)), w) /\
  calculate_profit_annualized py_pow p s e w =
    (inl (mk_InvalidDateFormat (match strptime s with inl _ => s | inr _ => e end)), w).
Proof.
  intros Hbad. unfold calculate_profit_between, calculate_profit_annualized.
  destruct (strptime s) as [errs|ds] eqn:Es.
  - pose proof (validate_err s errs w Es) as Hv.
    by rewrite !(bind_inl _ _ _ _ _ Hv).
  - destruct Hbad as [[err Hs]|[err He]]; [congruence|].
    pose proof (validate_ok s ds w Es) as Hvs.
    pose proof (validate_err e err w He) as Hve.
    rewrite !(bind_inr _ _ _ _ _ Hvs).
    by rewrite !(bind_inl _ _ _ _ _ Hve).
Qed.

Lemma C4_invalid_date_aborts_witness :
  calculate_profit_between p_msft (lit "2022-13-01") (lit "2020-01-01") w_zero =
    (inl (mk_InvalidDateFormat (lit "2022-13-01")), w_zero) /\
  calculate_profit_annualized (fun x _ => inr x) p_msft (lit "2022-13-01") (lit "2020-01-01")
    w_zero = (inl (mk_InvalidDateFormat (lit "2022-13-01")), w_zero).
Proof.
  apply (C4_invalid_date_aborts (fun x _ => inr x) p_msft (lit "2022-13-01") (lit "2020-01-01")
           w_zero).
  left. exists ValueError. vm_compute. reflexivity.
Defined.

(** C5: on two valid date strings, [calculate_profit_between] computes two
    valuations one after the other, the profit [(final - initial) /
    initial * 100] in double arithmetic, prints exactly the line "Profit
    between <start> and <end>: <profit:.2f>%" and returns [None]. *)
Theorem C5_profit_between_line (w0 w0' w : World) (p : Portfolio) (s e : pystr)
    (ds de : datetime) :
  Portfolio_init w0 = (inr p, w0') -> strptime s = inr ds -> strptime e = inr de ->
  exists q1 q2,
    _get_portfolio_value p w = (inr (Ffin q1), advance w (2 * length (stocks p))) /\
    _get_portfolio_value p (advance w (2 * length (stocks p))) =
      (inr (Ffin q2), advance w (4 * length (stocks p))) /\
    calculate_profit_between p s e w =
      (inr tt, mkWorld (rng w) (pos w + 4 * length (stocks p))
         (out w ++ [lit "Profit between " ++ s ++ lit " and " ++ e ++ lit ": "
                    ++ fmt_2f (fmul (fdiv (fsub (Ffin q2) (Ffin q1)) (Ffin q1)) f100)
                    ++ lit "%"])).
Proof.
  intros Hinit Hs He.
  destruct (two_valuations w0 w0' w p Hinit) as (q1 & q2 & H1 & H2 & Hq1 & Hq2).
  exists q1, q2. split; [done|]. split; [done|].
  unfold calculate_profit_between.
  rewrite (bind_inr _ _ _ _ _ (validate_ok s ds w Hs)).
  rewrite (bind_inr _ _ _ _ _ (validate_ok e de w He)).
  rewrite (bind_inr _ _ _ _ _ H1).
  rewrite (bind_inr _ _ _ _ _ H2).
  rewrite (bind_inr _ _ _ _ _ (profit_percentage_fin q1 (Ffin q2) _)).
  reflexivity.
Qed.

Lemma C5_profit_between_line_witness :
  (exists q1 q2,
    _get_portfolio_value p_msft (advance w_prices 2) =
      (inr (Ffin q1), advance (advance w_prices 2) 2) /\
    _get_portfolio_value p_msft (advance (advance w_prices 2) 2) =
      (inr (Ffin q2), advance (advance w_prices 2) 4) /\
    calculate_profit_between p_msft (lit "2022-01-01") (lit "2020-01-01") (advance w_prices 2) =
      (inr tt, mkWorld (rng w_prices) (2 + 4)
         ([] ++ [lit "Profit between " ++ lit "2022-01-01" ++ lit " and " ++ lit "2020-01-01"
                 ++ lit ": " ++ fmt_2f (fmul (fdiv (fsub (Ffin q2) (Ffin q1)) (Ffin q1)) f100)
                 ++ lit "%"]))) /\
  calculate_profit_between p_msft (lit "2022-01-01") (lit "2020-01-01") (advance w_prices 2) =
    (inr tt, mkWorld (rng w_prices) 6 [lit "Profit between 2022-01-01 and 2020-01-01: 0.37%"]).
Proof.
  split.
  - apply (C5_profit_between_line w_prices (advance w_prices 2) (advance w_prices 2) p_msft
             (lit "2022-01-01") (lit "2020-01-01") (mkDatetime 2022 1 1) (mkDatetime 2020 1 1));
      vm_compute; reflexivity.
  - vm_compute. reflexivity.
Defined.

(** C6 (counterexample): the distinct valid strings "2022-1-1" and
    "2022-01-01" name the same day; the report raises ZeroDivisionError
    after the two valuations and prints nothing. *)
Lemma C6_distinct_strings_same_day :
  calculate_profit_annualized (fun _ _ => inl OverflowError) p_msft
    (lit "2022-1-1") (lit "2022-01-01") w_zero
  = (inl ZeroDivisionError, advance w_zero 4).
Proof. vm_compute. reflexivity. Qed.

(** C6 (amended): on two valid date strings naming different days,
    [calculate_profit_annualized] computes two valuations one after the
    other, years as the double nearest to [|days| / 365], which is
    positive, and evaluates [(final / initial) ** (1 / years)] with double
    divisions; if [**] raises, the error propagates and nothing is
    printed; otherwise it prints "Profit since <start>: <profit:.2f>%" and
    then "Annualized profit: <annualized:.2f>%" with annualized
    [= ((final / initial) ** (1 / years) - 1) * 100] in double arithmetic. *)
Theorem C6_annualized_report (py_pow : float -> float -> exn + float) (w0 w0' w : World)
    (p : Portfolio) (s e : pystr) (ds de : datetime) :
  Portfolio_init w0 = (inr p, w0') -> strptime s = inr ds -> strptime e = inr de ->
  _calculate_days_difference ds de <> 0 ->
  exists q1 q2 yq,
    _get_portfolio_value p w = (inr (Ffin q1), advance w (2 * length (stocks p))) /\
    _get_portfolio_value p (advance w (2 * length (stocks p))) =
      (inr (Ffin q2), advance w (4 * length (stocks p))) /\
    _calculate_years_difference ds de (advance w (4 * length (stocks p))) =
      (inr (Ffin yq), advance w (4 * length (stocks p))) /\
    fl (inject_Z (_calculate_days_difference ds de) / inject_Z 365) false = Ffin yq /\
    (0 < yq)%Q /\
    match py_pow (fdiv (Ffin q2) (Ffin q1)) (fdiv f1 (Ffin yq)) with
    | inl err =>
        calculate_profit_annualized py_pow p s e w = (inl err, advance w (4 * length (stocks p)))
    | inr z =>
        calculate_profit_annualized py_pow p s e w =
        (inr tt, mkWorld (rng w) (pos w + 4 * length (stocks p))
           (out w ++ [lit "Profit since " ++ s ++ lit ": "
                      ++ fmt_2f (fmul (fdiv (fsub (Ffin q2) (Ffin q1)) (Ffin q1)) f100)
                      ++ lit "%";
                      lit "Annualized profit: " ++ fmt_2f (fmul (fsub z f1) f100)
                      ++ lit "%"]))
    end.
Proof.
  intros Hinit Hs He Hdays.
  destruct (annualized_run py_pow w0 w0' w p s e ds de Hinit Hs He)
    as (q1 & q2 & H1 & H2 & Hy & Hrun).
  pose proof (proj2 (strptime_sound s ds Hs)) as Hcs.
  pose proof (proj2 (strptime_sound e de He)) as Hce.
  destruct (years_spec ds de w Hcs Hce) as (_ & _ & Hpos).
  destruct (Hpos Hdays) as (yq & Hyq & Hyq0).
  exists q1, q2, yq. split; [done|]. split; [done|].
  rewrite Hyq in Hy, Hrun. split; [done|]. split; [done|]. split; [done|].
  rewrite Hrun.
  change (py_fdiv f1 (Ffin yq)) with (inr (fdiv f1 (Ffin yq)) : exn + float).
  cbv iota beta.
  destruct (py_pow (fdiv (Ffin q2) (Ffin q1)) (fdiv f1 (Ffin yq))); done.
Qed.

Lemma C6_annualized_report_witness :
  exists q1 q2 yq,
    _get_portfolio_value p_msft w_zero = (inr (Ffin q1), advance w_zero (2 * 1)) /\
    _get_portfolio_value p_msft (advance w_zero (2 * 1)) =
      (inr (Ffin q2), advance w_zero (4 * 1)) /\
    _calculate_years_difference (mkDatetime 2020 1 1) (mkDatetime 2022 1 1)
      (advance w_zero (4 * 1)) = (inr (Ffin yq), advance w_zero (4 * 1)) /\
    fl (inject_Z (_calculate_days_difference (mkDatetime 2020 1 1) (mkDatetime 2022 1 1))
        / inject_Z 365) false = Ffin yq /\
    (0 < yq)%Q /\
    match (fun x _ => inr x : exn + float) (fdiv (Ffin q2) (Ffin q1)) (fdiv f1 (Ffin yq)) with
    | inl err =>
        calculate_profit_annualized (fun x _ => inr x) p_msft (lit "2020-01-01")
          (lit "2022-01-01") w_zero = (inl err, advance w_zero (4 * 1))
    | inr z =>
        calculate_profit_annualized (fun x _ => inr x) p_msft (lit "2020-01-01")
          (lit "2022-01-01") w_zero =
        (inr tt, mkWorld (rng w_zero) (pos w_zero + 4 * 1)
           (out w_zero ++ [lit "Profit since " ++ lit "2020-01-01" ++ lit ": "
                      ++ fmt_2f (fmul (fdiv (fsub (Ffin q2) (Ffin q1)) (Ffin q1)) f100)
                      ++ lit "%";
                      lit "Annualized profit: " ++ fmt_2f (fmul (fsub z f1) f100)
                      ++ lit "%"]))
    end.
Proof.
  apply (C6_annualized_report (fun x _ => inr x) w_zero (mkWorld (fun _ => 0) 2 []) w_zero
           p_msft (lit "2020-01-01") (lit "2022-01-01") (mkDatetime 2020 1 1)
           (mkDatetime 2022 1 1)).
  - vm_compute. reflexivity.
  - vm_compute. reflexivity.
  - vm_compute. reflexivity.
  - vm_compute. discriminate.
Defined.

(** C7: with the same valid string as start and end, the elapsed years are
    [+0.0] and [1 / years] raises ZeroDivisionError, which propagates out
    of [calculate_profit_annualized] after the two valuations; nothing is
    printed. *)
Theorem C7_same_date_zero_division (py_pow : float -> float -> exn + float)
    (w0 w0' w : World) (p : Portfolio) (s : pystr) (ds : datetime) :
  Portfolio_init w0 = (inr p, w0') -> strptime s = inr ds ->
  _calculate_years_difference ds ds w = (inr (Fzero false), w) /\
  py_fdiv f1 (Fzero false) = inl ZeroDivisionError /\
  calculate_profit_annualized py_pow p s s w =
    (inl ZeroDivisionError, advance w (4 * length (stocks p))).
Proof.
  intros Hinit Hs.
  assert (H0 : _calculate_days_difference ds ds = 0)
    by (unfold _calculate_days_difference, timedelta_days; lia).
  pose proof (proj2 (strptime_sound s ds Hs)) as Hc.
  destruct (years_spec ds ds w Hc Hc) as (Hy & Hz & _).
  split; [rewrite Hy, (Hz H0); reflexivity|].
  split; [reflexivity|].
  destruct (annualized_run py_pow w0 w0' w p s s ds ds Hinit Hs Hs)
    as (q1 & q2 & _ & _ & _ & Hrun).
  rewrite Hrun, (Hz H0). reflexivity.
Qed.

Lemma C7_same_date_zero_division_witness :
  _calculate_years_difference (mkDatetime 2022 1 1) (mkDatetime 2022 1 1) w_zero =
    (inr (Fzero false), w_zero) /\
  py_fdiv f1 (Fzero false) = inl ZeroDivisionError /\
  calculate_profit_annualized (fun x _ => inr x) p_msft (lit "2022-01-01") (lit "2022-01-01")
    w_zero = (inl ZeroDivisionError, advance w_zero (4 * 1)).
Proof.
  apply (C7_same_date_zero_division (fun x _ => inr x) w_zero (mkWorld (fun _ => 0) 2 [])
           w_zero p_msft (lit "2022-01-01") (mkDatetime 2022 1 1)); vm_compute; reflexivity.
Defined.

(** * Further properties of the code *)

(** ** Prices *)

(** X2: Every [i + c / 100] with [i] in [1, 1000] and [c] in [1, 100] is a
    possible price, computed as the double nearest to [i] plus the double
    nearest to [c / 100], rounded again; 1001.0 included. *)
Theorem X_price_all_values_reachable (s : Stock) (i c : Z) :
  1 <= i <= 1000 -> 1 <= c <= 100 ->
  exists w, get_price s w =
    (inr (fadd (fl (inject_Z i) false) (fl (inject_Z c / inject_Z 100) false)), advance w 2).
Proof.
  intros Hi Hc.
  exists (mkWorld (fun n => if Nat.eqb n 0 then i - 1 else c - 1) 0 []).
  rewrite get_price_eq. simpl.
  rewrite !Z.mod_small by lia.
  replace (1 + (i - 1)) with i by lia. replace (1 + (c - 1)) with c by lia.
  destruct (truediv_cents c Hc) as (-> & Hc0 & Hc1).
  destruct (of_int_price i Hi) as (-> & Hi0 & Hi1).
  assert (Hcq : (0 < inject_Z c / inject_Z 100)%Q)
    by (unfold Qlt, Qdiv, Qmult, Qinv; simpl; lia).
  assert (Hiq : (0 < inject_Z i)%Q) by (unfold Qlt; simpl; lia).
  rewrite (fl_pos (inject_Z i)); [|done|lra|].
  2: { apply (below_pow2_1024 _ 1000); [done|]. vm_compute. reflexivity. }
  rewrite (fl_pos (inject_Z c / inject_Z 100)); [|done|lra|].
  2: { apply (below_pow2_1024 _ 1); [change (inject_Z 1) with 1%Q; lra|].
       vm_compute. reflexivity. }
  reflexivity.
Qed.

Lemma X_price_all_values_reachable_witness :
  exists w, get_price (mkStock (lit "MSFT")) w =
    (inr (fadd (fl (inject_Z 1000) false) (fl (inject_Z 100 / inject_Z 100) false)),
     advance w 2).
Proof. apply (X_price_all_values_reachable (mkStock (lit "MSFT")) 1000 100); lia. Defined.

(** X1: Every price is a finite non-zero double between 1.01 and 1001; it
    takes exactly two draws and prints nothing. *)
Theorem X_price_range (s : Stock) (w : World) :
  exists q, get_price s w = (inr (Ffin q), advance w 2) /\
    (101 # 100 <= q)%Q /\ (q <= 1001)%Q.
Proof. apply price_spec. Qed.

(** X3: The value of a portfolio of [n] stocks, for any [n] up to 1000, takes
    exactly [2 n] draws and prints nothing; it is [+0.0] for no stocks and
    otherwise a finite double of at least 1.01: the sum never overflows. *)
Theorem X_portfolio_value_finite (p : Portfolio) (w : World) :
  (length (stocks p) <= 1000)%nat ->
  exists v, _get_portfolio_value p w = (inr v, advance w (2 * length (stocks p))) /\
    ((stocks p = [] /\ v = Fzero false) \/
     (stocks p <> [] /\ exists q, v = Ffin q /\ (101 # 100 <= q)%Q)).
Proof.
  intros Hlen.
  destruct (sum_prices_spec (stocks p) 0 (Fzero false) w) as (v & Hv & Hinv).
  { lia. }
  { left. done. }
  exists v. split; [done|].
  destruct Hinv as [[Hk ->] | (a & -> & Ha & _)].
  - left. split; [|done]. destruct (stocks p); [done|simpl in Hk; lia].
  - right. split.
    + intros E. unfold _get_portfolio_value in Hv. rewrite E in Hv. simpl in Hv.
      unfold ret in Hv. discriminate.
    + exists a. done.
Qed.

Lemma X_portfolio_value_finite_witness :
  exists v, _get_portfolio_value p_msft w_zero =
            (inr v, advance w_zero (2 * length (stocks p_msft))) /\
    ((stocks p_msft = [] /\ v = Fzero false) \/
     (stocks p_msft <> [] /\ exists q, v = Ffin q /\ (101 # 100 <= q)%Q)).
Proof. apply X_portfolio_value_finite. simpl. lia. Defined.

(** ** Portfolio construction *)

(** X4: Every portfolio size from 1 to 8 can occur. *)
Theorem X_portfolio_size_reachable (k : Z) :
  1 <= k <= 8 ->
  exists w p w', Portfolio_init w = (inr p, w') /\ Z.of_nat (length (stocks p)) = k.
Proof.
  intros Hk. set (w := mkWorld (fun _ => k - 1) 0 []).
  destruct (Portfolio_init_size w) as (p & w' & Hrun & Hlen).
  exists w, p, w'. split; [done|]. rewrite Hlen. simpl.
  rewrite Z.mod_small by lia. lia.
Qed.

Lemma X_portfolio_size_reachable_witness :
  exists w p w', Portfolio_init w = (inr p, w') /\ Z.of_nat (length (stocks p)) = 8.
Proof. apply (X_portfolio_size_reachable 8); lia. Defined.

(** ** Calendar arithmetic *)

(** X8: From January 1st of a year to January 1st of the next there are 366
    days in a leap year and 365 otherwise. *)
Theorem X_year_length (y : Z) :
  _calculate_days_difference (mkDatetime y 1 1) (mkDatetime (y + 1) 1 1) =
  if _is_leap y then 366 else 365.
Proof.
  unfold _calculate_days_difference, timedelta_days, toordinal. simpl.
  rewrite ymd2ord_year_step. by destruct (_is_leap y).
Qed.

(** X9: From the first of a month to the first of the next month there are as
    many days as the month has. *)
Theorem X_month_length (y m : Z) :
  1 <= m <= 12 ->
  _calculate_days_difference (mkDatetime y m 1)
    (if m =? 12 then mkDatetime (y + 1) 1 1 else mkDatetime y (m + 1) 1) =
  _days_in_month y m.
Proof.
  intros Hm. pose proof (month_step y m Hm) as Hs.
  pose proof (days_in_month_ge_28 y m Hm).
  unfold _calculate_days_difference, timedelta_days, toordinal, _ymd2ord.
  destruct (Z.eqb_spec m 12) as [->|Hne]; simpl in *.
  - rewrite days_before_year_succ.
    assert (_days_before_month (y + 1) 1 = 0) by reflexivity.
    destruct (_is_leap y); lia.
  - lia.
Qed.

Lemma X_month_length_witness :
  _calculate_days_difference (mkDatetime 2024 2 1)
    (if 2 =? 12 then mkDatetime (2024 + 1) 1 1 else mkDatetime 2024 (2 + 1) 1) =
  _days_in_month 2024 2.
Proof. apply X_month_length. lia. Defined.

(** X10: Two dates that pass the calendar check are zero days apart exactly
    when they are the same date. *)
Theorem X_days_difference_zero_iff_same_date (a b : datetime) :
  _check_date_fields (year a) (month a) (day a) = true ->
  _check_date_fields (year b) (month b) (day b) = true ->
  _calculate_days_difference a b = 0 <-> a = b.
Proof. apply days_difference_zero_iff. Qed.

Lemma X_days_difference_zero_iff_same_date_witness :
  _calculate_days_difference (mkDatetime 2021 12 31) (mkDatetime 2022 1 1) = 0 <->
  mkDatetime 2021 12 31 = mkDatetime 2022 1 1.
Proof. apply X_days_difference_zero_iff_same_date; reflexivity. Defined.

(** ** Date validation *)

(** X11: A date returned by [_validate_date_format] passes the calendar check
    (year 1-9999, month 1-12, day within the month), comes from a string of
    8 to 10 characters, and the world is untouched. *)
Theorem X_validated_dates_are_valid (s : pystr) (dt : datetime) (w w' : World) :
  _validate_date_format s w = (inr dt, w') ->
  w' = w /\ 1 <= year dt <= 9999 /\ 1 <= month dt <= 12 /\
  1 <= day dt <= _days_in_month (year dt) (month dt) /\
  (8 <= length s <= 10)%nat.
Proof.
  rewrite validate_eq. destruct (strptime s) as [err|dt'] eqn:E; [done|].
  intros [= -> ->]. apply strptime_sound in E as [Ht Hc].
  apply check_date_fields_spec in Hc as (Hy & Hm & Hd).
  pose proof (date_text_length _ _ _ _ Ht). done.
Qed.

Lemma X_validated_dates_are_valid_witness :
  w_zero = w_zero /\ 1 <= 2024 <= 9999 /\ 1 <= 2 <= 12 /\
  1 <= 29 <= _days_in_month 2024 2 /\ (8 <= length (lit "2024-2-29") <= 10)%nat.
Proof.
  apply (X_validated_dates_are_valid (lit "2024-2-29") (mkDatetime 2024 2 29) w_zero w_zero).
  vm_compute. reflexivity.
Defined.

(** ** The reporting operations *)

(** X12: Both reports print the same profit figure, and it does not depend on
    the date strings: for a constructed portfolio and a given world there
    is one figure [pct] such that, for any two valid date strings,
    [calculate_profit_between] prints "Profit between <s> and <e>:
    <pct>%" and a successful [calculate_profit_annualized] first prints
    "Profit since <s>: <pct>%". *)
Theorem X_reports_share_profit (py_pow : float -> float -> exn + float) (w0 w0' w : World)
    (p : Portfolio) :
  Portfolio_init w0 = (inr p, w0') ->
  exists pct, forall s e ds de, strptime s = inr ds -> strptime e = inr de ->
    calculate_profit_between p s e w =
      (inr tt, mkWorld (rng w) (pos w + 4 * length (stocks p))
         (out w ++ [lit "Profit between " ++ s ++ lit " and " ++ e ++ lit ": " ++ pct
                    ++ lit "%"])) /\
    forall w', calculate_profit_annualized py_pow p s e w = (inr tt, w') ->
      exists l2, out w' = out w ++ [lit "Profit since " ++ s ++ lit ": " ++ pct ++ lit "%"; l2].
Proof.
  intros Hinit.
  destruct (two_valuations w0 w0' w p Hinit) as (q1 & q2 & H1 & H2 & Hq1 & Hq2).
  exists (fmt_2f (fmul (fdiv (fsub (Ffin q2) (Ffin q1)) (Ffin q1)) f100)).
  intros s e ds de Hs He. split.
  - unfold calculate_profit_between.
    rewrite (bind_inr _ _ _ _ _ (validate_ok s ds w Hs)).
    rewrite (bind_inr _ _ _ _ _ (validate_ok e de w He)).
    rewrite (bind_inr _ _ _ _ _ H1).
    rewrite (bind_inr _ _ _ _ _ H2).
    rewrite (bind_inr _ _ _ _ _ (profit_percentage_fin q1 (Ffin q2) _)).
    reflexivity.
  - intros w' Hrun.
    destruct (annualized_run py_pow w0 w0' w p s e ds de Hinit Hs He)
      as (q1' & q2' & H1' & H2' & _ & Hrun').
    rewrite H1 in H1'. injection H1' as <-.
    rewrite H2 in H2'. injection H2' as <-.
    rewrite Hrun' in Hrun.
    destruct (py_fdiv f1 _) as [err|ey]; [discriminate|].
    destruct (py_pow _ ey) as [err|z]; [discriminate|].
    injection Hrun as <-. eexists. reflexivity.
Qed.

Lemma X_reports_share_profit_witness :
  Portfolio_init w_zero = (inr p_msft, mkWorld (fun _ => 0) 2 []) /\
  exists pct, forall s e ds de, strptime s = inr ds -> strptime e = inr de ->
    calculate_profit_between p_msft s e w_zero =
      (inr tt, mkWorld (rng w_zero) (pos w_zero + 4 * length (stocks p_msft))
         (out w_zero ++ [lit "Profit between " ++ s ++ lit " and " ++ e ++ lit ": " ++ pct
                         ++ lit "%"])) /\
    forall w', calculate_profit_annualized (fun x _ => inr x) p_msft s e w_zero = (inr tt, w') ->
      exists l2, out w' = out w_zero ++ [lit "Profit since " ++ s ++ lit ": " ++ pct ++ lit "%"; l2].
Proof.
  assert (H : Portfolio_init w_zero = (inr p_msft, mkWorld (fun _ => 0) 2 [])).
  { vm_compute. reflexivity. }
  split; [exact H|].
  exact (X_reports_share_profit (fun x _ => inr x) w_zero _ w_zero p_msft H).
Defined.

(** X14: The reports print all their lines or none: on any portfolio (even an
    empty one), any strings and any world, [calculate_profit_between] either
    raises with the output unchanged or appends exactly one line, and
    [calculate_profit_annualized] either raises with the output unchanged
    or appends exactly two lines. *)
Theorem X_reports_print_all_or_nothing (py_pow : float -> float -> exn + float)
    (p : Portfolio) (s e : pystr) (w : World) :
  match calculate_profit_between p s e w with
  | (inl _, w') => out w' = out w
  | (inr _, w') => exists l, out w' = out w ++ [l]
  end /\
  match calculate_profit_annualized py_pow p s e w with
  | (inl _, w') => out w' = out w
  | (inr _, w') => exists l1 l2, out w' = out w ++ [l1; l2]
  end.
Proof.
  unfold calculate_profit_between, calculate_profit_annualized.
  destruct (strptime s) as [err|ds] eqn:Es.
  { by rewrite !(bind_inl _ _ _ _ _ (validate_err s err w Es)). }
  rewrite !(bind_inr _ _ _ _ _ (validate_ok s ds w Es)).
  destruct (strptime e) as [err|de] eqn:Ee.
  { by rewrite !(bind_inl _ _ _ _ _ (validate_err e err w Ee)). }
  rewrite !(bind_inr _ _ _ _ _ (validate_ok e de w Ee)).
  destruct (sum_prices_total (stocks p) (Fzero false) w) as (v1 & H1).
  destruct (sum_prices_total (stocks p) (Fzero false) (advance w (2 * length (stocks p))))
    as (v2 & H2).
  fold (_get_portfolio_value p) in H1, H2.
  rewrite !(bind_inr _ _ _ _ _ H1), !(bind_inr _ _ _ _ _ H2).
  set (w2 := advance (advance w (2 * length (stocks p))) (2 * length (stocks p))).
  pose proof (profit_percentage_unfold v1 v2 w2) as Hp.
  assert (Hy : _calculate_years_difference ds de w2 =
               (py_int_truediv (_calculate_days_difference ds de) 365, w2)) by reflexivity.
  destruct (py_fdiv (fsub v2 v1) v1) as [err|q].
  { rewrite (bind_inl _ _ _ _ _ Hp). split; [done|].
    destruct (py_int_truediv _ 365) as [err'|y].
    - by rewrite (bind_inl _ _ _ _ _ Hy).
    - rewrite (bind_inr _ _ _ _ _ Hy). by rewrite (bind_inl _ _ _ _ _ Hp). }
  split; [rewrite (bind_inr _ _ _ _ _ Hp); eexists; reflexivity|].
  destruct (py_int_truediv _ 365) as [err|y].
  { by rewrite (bind_inl _ _ _ _ _ Hy). }
  rewrite (bind_inr _ _ _ _ _ Hy), (bind_inr _ _ _ _ _ Hp).
  unfold _calculate_annualized_return, bind, of_result.
  destruct (py_fdiv v2 v1) as [err|r]; [done|].
  destruct (py_fdiv f1 y) as [err|ey]; [done|].
  destruct (py_pow r ey) as [err|z]; [done|].
  unfold ret, print. simpl. eexists _, _. by rewrite <- app_assoc.
Qed.
